(** * EasyNQL: the generate / validate / execute / repair loop

    A shallow embedding of [easy_nql.py] (class [EasyNQL]) and the
    properties of its retry orchestrator, safety gate and response cleaner.

    Modelling conventions.
    - Python [str] values are Rocq [string]s.  The model is exact for ASCII
      text: characters above code 127 are carried through unchanged, are
      never whitespace and have no upper-case form.
    - The two external collaborators (the text-generation backend and the
      database) are oracles of an environment [Env]; every call to them is
      recorded in a chronological trace held by the machine state.
    - Methods of [EasyNQL] that mutate [self], log or raise are computations
      in a small state-and-exception monad [M]. *)

From Stdlib Require Import ZArith QArith Ascii String.
From stdpp Require Import base option list strings pretty gmap.

Local Open Scope Z_scope.

(** ** Python string primitives *)

Module PyStr.

Definition NL : ascii := ascii_of_nat 10.
Definition SEMI : ascii := ascii_of_nat 59.
Definition DQUOTE : ascii := ascii_of_nat 34.

Definition nl : string := String NL EmptyString.
Definition dquote : string := String DQUOTE EmptyString.

(** [str.isspace] on one character, ASCII range: tab, line feed, vertical
    tab, form feed, carriage return, the four separators 28..31, space. *)
Definition isspace (c : ascii) : bool :=
  let n := nat_of_ascii c in
  ((9 <=? n)%nat && (n <=? 13)%nat) || ((28 <=? n)%nat && (n <=? 32)%nat).

(** [str.upper] on one character, ASCII range. *)
Definition upper_char (c : ascii) : ascii :=
  let n := nat_of_ascii c in
  if ((97 <=? n)%nat && (n <=? 122)%nat) then ascii_of_nat (n - 32) else c.

Fixpoint upper (s : string) : string :=
  match s with
  | EmptyString => EmptyString
  | String c r => String (upper_char c) (upper r)
  end.

(** [s.startswith(p)] *)
Definition startswith (s p : string) : bool := String.prefix p s.

Fixpoint lstrip (s : string) : string :=
  match s with
  | EmptyString => EmptyString
  | String c r => if isspace c then lstrip r else s
  end.

Fixpoint rstrip (s : string) : string :=
  match s with
  | EmptyString => EmptyString
  | String c r =>
      match rstrip r with
      | EmptyString => if isspace c then EmptyString else String c EmptyString
      | r' => String c r'
      end
  end.

(** [s.strip()] *)
Definition strip (s : string) : string := rstrip (lstrip s).

(** [s.split(sep)] for a one-character separator: never the empty list. *)
Fixpoint split (sep : ascii) (s : string) : list string :=
  match s with
  | EmptyString => [EmptyString]
  | String c r =>
      if Ascii.eqb c sep then EmptyString :: split sep r
      else match split sep r with
           | h :: t => String c h :: t
           | [] => [String c EmptyString]
           end
  end.

(** [sep.join(parts)] *)
Fixpoint join (sep : string) (parts : list string) : string :=
  match parts with
  | [] => EmptyString
  | [p] => p
  | p :: rest => p +:+ sep +:+ join sep rest
  end.

(** [s.replace(old, new)] for a non-empty [old]: the leftmost
    non-overlapping occurrences are replaced.  [skip] counts the characters
    of the occurrence just matched that are still to be passed over. *)
Fixpoint replace_from (old new : string) (skip : nat) (s : string) : string :=
  match s with
  | EmptyString => EmptyString
  | String c r =>
      match skip with
      | S k => replace_from old new k r
      | O =>
          if String.prefix old s
          then new +:+ replace_from old new (String.length old - 1) r
          else String c (replace_from old new O r)
      end
  end.

Definition replace (old new s : string) : string := replace_from old new 0 s.

(** [sub in s] *)
Fixpoint contains (sub s : string) : bool :=
  String.prefix sub s ||
  match s with
  | EmptyString => false
  | String _ r => contains sub r
  end.

(** [c in s] for one character. *)
Fixpoint has_char (c : ascii) (s : string) : bool :=
  match s with
  | EmptyString => false
  | String d r => Ascii.eqb d c || has_char c r
  end.

(** Truthiness of a [str]. *)
Definition nonempty (s : string) : bool :=
  match s with EmptyString => false | _ => true end.

(** Truthiness of an [Optional[str]]. *)
Definition truthy (o : option string) : bool :=
  match o with Some s => nonempty s | None => false end.

End PyStr.

Import PyStr.

Definition FENCE : string := "```".
Definition MARKER : string := ">>>".

(** [EasyNQL._clear_llm_response] *)
Definition _clear_llm_response (response : string) : string :=
  let response := replace MARKER EmptyString response in
  let lines :=
    List.filter (fun line => negb (startswith line FENCE)) (split NL response) in
  join nl lines.

(** ** Data model *)

(** A cell of a fetched row (dynamically typed in the source). *)
Inductive pyval :=
  | PNone
  | PInt (z : Z)
  | PFloat (q : Q)
  | PStr (s : string).

Definition row := list pyval.

(** A record of the formatted result: a Python [dict], insertion ordered. *)
Definition record := list (string * pyval).

(** [Union[str, List[dict]]], what [_format_results] returns. *)
Inductive formatted :=
  | FText (s : string)
  | FRecords (l : list record).

(** The triple [(rows, column_names, error)] of [_execute_sql_query]. *)
Record exec_outcome := {
  out_rows : option (list row);
  out_columns : option (list string);
  out_error : option string;
}.

Inductive exn :=
  | ValueError (msg : string)
  | IndexError.

Inductive result (A : Type) :=
  | Ok (a : A)
  | Raise (e : exn).
Arguments Ok {A} a.
Arguments Raise {A} e.

(** What the outside world observes of a run, in chronological order. *)
Inductive event :=
  | EvBackend (model system user response : string)
  | EvExecute (sql_query : string) (out : exec_outcome)
  | EvRepair (error : string) (res : result string)
  | EvLog (level message : string).

(** The instance attributes of [EasyNQL] ([engine] only records whether a
    database engine is connected). *)
Record EasyNQL := {
  schema_text : string;
  engine : bool;
  model : string;
  database_type : string;
  logs : bool;
  natural_language_question : option string;
  generated_query : option string;
}.

Record Machine := {
  self : EasyNQL;
  trace : list event;
}.

(** The external collaborators.  Calls are numbered from 0 in the order they
    are issued, so an oracle may answer differently on each call. *)
Record Env := {
  (** [ollama.chat(model, [system, user]).message.content] *)
  ollama_chat : nat -> string -> string -> string -> string;
  (** [connection.execute(text(sql))]: rows and column names, or the text of
      the exception raised *)
  db_execute : nat -> string -> (list row * list string) + string;
  (** [time.strftime(..., time.localtime())] when the given backend call is
      being prepared *)
  strftime_now : nat -> string;
  (** [round(time.time() - start_time, 2)] of the run *)
  elapsed : Q;
  (** [str] of a float and of a formatted result *)
  str_float : Q -> string;
  str_results : formatted -> string;
}.

Definition is_backend (e : event) : bool :=
  match e with EvBackend _ _ _ _ => true | _ => false end.
Definition is_execute (e : event) : bool :=
  match e with EvExecute _ _ => true | _ => false end.
Definition is_repair (e : event) : bool :=
  match e with EvRepair _ _ => true | _ => false end.

Definition count_events (p : event -> bool) (tr : list event) : nat :=
  length (List.filter p tr).

(** ** The state-and-exception monad *)

Definition M (A : Type) : Type := Machine -> result A * Machine.

Definition ret {A} (a : A) : M A := fun m => (Ok a, m).
Definition raise {A} (e : exn) : M A := fun m => (Raise e, m).
Definition bind {A B} (c : M A) (k : A -> M B) : M B :=
  fun m => match c m with
           | (Ok a, m') => k a m'
           | (Raise e, m') => (Raise e, m')
           end.

#[global] Instance M_ret : MRet M := @ret.
#[global] Instance M_bind : MBind M := fun A B k c => bind c k.

(** [try: c  except ValueError as e: h e] *)
Definition try_except_ValueError {A} (c : M A) (h : string -> M A) : M A :=
  fun m => match c m with
           | (Raise (ValueError msg), m') => h msg m'
           | r => r
           end.

Definition emit (e : event) : M unit :=
  fun m => (Ok tt, {| self := self m; trace := trace m ++ [e] |}).

Definition get_self : M EasyNQL := fun m => (Ok (self m), m).
Definition set_self (s : EasyNQL) : M unit :=
  fun m => (Ok tt, {| self := s; trace := trace m |}).

Definition set_natural_language_question (q : string) (s : EasyNQL) : EasyNQL :=
  {| schema_text := schema_text s; engine := engine s; model := model s;
     database_type := database_type s; logs := logs s;
     natural_language_question := Some q;
     generated_query := generated_query s |}.

Definition set_generated_query (q : string) (s : EasyNQL) : EasyNQL :=
  {| schema_text := schema_text s; engine := engine s; model := model s;
     database_type := database_type s; logs := logs s;
     natural_language_question := natural_language_question s;
     generated_query := Some q |}.

(** ** Methods of [EasyNQL] *)

Section Methods.

Context (env : Env).

(** [EasyNQL._log]: nothing unless logging is enabled. *)
Definition _log (message level : string) : M unit :=
  s ← get_self;
  if logs s then emit (EvLog level message) else ret tt.

(** The one blocking call to the text-generation backend. *)
Definition backend_chat (system_prompt user_prompt : string) : M string :=
  fun m =>
    let n := count_events is_backend (trace m) in
    let content := ollama_chat env n (model (self m)) system_prompt user_prompt in
    (Ok content,
     {| self := self m;
        trace := trace m ++ [EvBackend (model (self m)) system_prompt user_prompt content] |}).


Definition now : M string :=
  fun m => (Ok (strftime_now env (count_events is_backend (trace m))), m).

Definition ind : string := "        ".

(** The f-string fragment naming the dialect, empty for an empty tag. *)
Definition specialized (s : EasyNQL) : string :=
  if nonempty (database_type s)
  then ", specialized in " +:+ database_type s
  else EmptyString.

(** [EasyNQL._is_safe_query] *)
Definition _is_safe_query (query : string) : M string :=
  let query := hd EmptyString (split SEMI query) in
  if startswith (upper (strip query)) "SELECT" then ret (strip query)
  else
    _log ("Query is not a SELECT statement: " +:+ query) "error" ;;
    raise (ValueError "A non-SELECT query was generated. Please try again.").

Definition generate_system_prompt (s : EasyNQL) : string :=
  strip (nl +:+ ind +:+ "You are an expert SQL assistant" +:+ specialized s
    +:+ ". Convert natural language questions into SQL queries based on the provided database schema. Only provide the SQL query without explanations."
    +:+ nl +:+ ind
    +:+ "If the natural language question asks you to update, delete, or insert data, please ignore it."
    +:+ nl +:+ ind).

Definition generate_user_prompt (s : EasyNQL) (time question : string) : string :=
  strip (nl +:+ ind +:+ "Today is: " +:+ nl +:+ ind +:+ time +:+ nl
    +:+ nl +:+ ind +:+ "Database Schema:" +:+ nl +:+ ind +:+ schema_text s +:+ nl
    +:+ nl +:+ ind +:+ "Question:" +:+ nl +:+ ind
    +:+ dquote +:+ question +:+ dquote +:+ nl +:+ ind).

(** [EasyNQL.generate_sql] *)
Definition generate_sql (question : string) : M string :=
  s ← get_self;
  set_self (set_natural_language_question question s) ;;
  s ← get_self;
  let system_prompt := generate_system_prompt s in
  time ← now;
  let user_prompt := generate_user_prompt s time question in
  content ← backend_chat system_prompt user_prompt;
  s ← get_self;
  set_self (set_generated_query content s) ;;
  let clear_response := _clear_llm_response content in
  safe_query ← _is_safe_query clear_response;
  _log ("Generated SQL: " +:+ safe_query) "debug" ;;
  ret safe_query.

Definition repair_system_prompt (s : EasyNQL) : string :=
  strip (nl +:+ ind +:+ "You are an expert SQL assistant" +:+ specialized s
    +:+ ". Try to fix the error in the SQL query based on the provided database schema. Only provide the SQL query without explanations. Don't write anything more than the fixed query."
    +:+ nl +:+ ind).

Definition repair_user_prompt
    (s : EasyNQL) (time question error sql_query : string) : string :=
  strip (nl +:+ ind +:+ "Today is: " +:+ nl +:+ ind +:+ time +:+ nl
    +:+ nl +:+ ind +:+ "Database Schema:" +:+ nl +:+ ind +:+ schema_text s +:+ nl
    +:+ nl +:+ ind +:+ "Question:" +:+ nl +:+ ind
    +:+ dquote +:+ question +:+ dquote +:+ nl
    +:+ nl +:+ ind +:+ "Error:" +:+ nl +:+ ind +:+ error +:+ nl
    +:+ nl +:+ ind +:+ "SQL Query:" +:+ nl +:+ ind +:+ sql_query +:+ nl +:+ ind).

(** An optional argument that falls back on an attribute of [self]:
    [if not arg: if not attr: raise ValueError(msg); arg = attr]. *)
Definition or_stored (arg attr : option string) (msg : string) : M string :=
  match arg with
  | Some a =>
      if nonempty a then ret a
      else match attr with
           | Some v => if nonempty v then ret v else raise (ValueError msg)
           | None => raise (ValueError msg)
           end
  | None =>
      match attr with
      | Some v => if nonempty v then ret v else raise (ValueError msg)
      | None => raise (ValueError msg)
      end
  end.

(** The body of [EasyNQL.fix_error_message]. *)
Definition fix_error_message_body
    (error : string) (question sql_query : option string) : M string :=
  s ← get_self;
  sql_query ← or_stored sql_query (generated_query s)
    "The sql_query parameter must be provided or a SQL query must be generated first.";
  question ← or_stored question (natural_language_question s)
    "The question parameter must be provided or a natural language question must be generated first.";
  let system_prompt := repair_system_prompt s in
  time ← now;
  let user_prompt := repair_user_prompt s time question error sql_query in
  content ← backend_chat system_prompt user_prompt;
  let clear_response := _clear_llm_response content in
  fixed_query ← _is_safe_query clear_response;
  _log ("Fixed SQL: " +:+ fixed_query) "debug" ;;
  ret fixed_query.

(** [EasyNQL.fix_error_message]; the call and how it ended are recorded. *)
Definition fix_error_message
    (error : string) (question sql_query : option string) : M string :=
  fun m =>
    let '(r, m') := fix_error_message_body error question sql_query m in
    (r, {| self := self m'; trace := trace m' ++ [EvRepair error r] |}).

Definition human_system_prompt (s : EasyNQL) : string :=
  strip (nl +:+ ind +:+ "You are an expert SQL assistant" +:+ specialized s
    +:+ ". Generate a response to the question based on the provided database schema and query results. Be concise and provide a short answer in a human-like phrase."
    +:+ nl +:+ ind).

(** [str] of an [Optional[str]] inside an f-string. *)
Definition str_optional (o : option string) : string :=
  match o with Some s => s | None => "None" end.

Definition human_user_prompt
    (s : EasyNQL) (question query_results : string) : string :=
  strip (nl +:+ ind +:+ "Database Schema:" +:+ nl +:+ ind +:+ schema_text s +:+ nl
    +:+ nl +:+ ind +:+ "Question:" +:+ nl +:+ ind
    +:+ dquote +:+ question +:+ dquote +:+ nl
    +:+ nl +:+ ind +:+ "The executed query is:" +:+ nl +:+ ind
    +:+ str_optional (generated_query s) +:+ nl
    +:+ nl +:+ ind +:+ "Query Results:" +:+ nl +:+ ind +:+ query_results
    +:+ nl +:+ ind).

(** [EasyNQL.generate_human_response] *)
Definition generate_human_response
    (query_results : string) (question : option string) : M string :=
  s ← get_self;
  question ← or_stored question (natural_language_question s)
    "The natural_language_question parameter must be provided or a question must be generated first.";
  let system_prompt := human_system_prompt s in
  let user_prompt := human_user_prompt s question query_results in
  backend_chat system_prompt user_prompt.

(** [EasyNQL._execute_sql_query]: never raises; the call is recorded. *)
Definition _execute_sql_query (sql_query : string) : M exec_outcome :=
  fun m =>
    let out :=
      if engine (self m) then
        match db_execute env (count_events is_execute (trace m)) sql_query with
        | inl (rows, column_names) =>
            {| out_rows := Some rows; out_columns := Some column_names;
               out_error := None |}
        | inr msg =>
            {| out_rows := None; out_columns := None; out_error := Some msg |}
        end
      else
        {| out_rows := None; out_columns := None;
           out_error := Some "No database engine is connected." |} in
    (Ok out, {| self := self m; trace := trace m ++ [EvExecute sql_query out] |}).

End Methods.

(** [d[k] = v] on an insertion-ordered [dict]. *)
Fixpoint dict_set (k : string) (v : pyval) (d : record) : record :=
  match d with
  | [] => [(k, v)]
  | (k', v') :: rest =>
      if String.eqb k' k then (k', v) :: rest else (k', v') :: dict_set k v rest
  end.

(** [{column_names[i]: row[i] for i in range(len(column_names))}], the
    indices still to visit in [indices]. *)
Fixpoint row_data
    (column_names : list string) (r : row) (indices : list nat) (acc : record)
    : result record :=
  match indices with
  | [] => Ok acc
  | i :: rest =>
      match column_names !! i, r !! i with
      | Some name, Some v => row_data column_names r rest (dict_set name v acc)
      | _, _ => Raise IndexError
      end
  end.

Fixpoint format_rows
    (column_names : list string) (rows : list row) (result_list : list record)
    : result (list record) :=
  match rows with
  | [] => Ok result_list
  | r :: rest =>
      match row_data column_names r (seq 0 (length column_names)) [] with
      | Ok d => format_rows column_names rest (result_list ++ [d])
      | Raise e => Raise e
      end
  end.

(** Truthiness of an [Optional[list]]. *)
Definition list_truthy {A} (o : option (list A)) : bool :=
  match o with Some (_ :: _) => true | _ => false end.

(** [EasyNQL._format_results] *)
Definition _format_results
    (rows : option (list row)) (column_names : option (list string))
    : result formatted :=
  if negb (list_truthy rows) || negb (list_truthy column_names)
  then Ok (FText "No results found.")
  else
    match format_rows (default [] column_names) (default [] rows) [] with
    | Ok l => Ok (FRecords l)
    | Raise e => Raise e
    end.

(** ** The retry orchestrator *)

(** A value of the dictionary [chat] returns. *)
Inductive bval :=
  | BStr (s : string)
  | BResults (r : formatted)
  | BFloat (q : Q)
  | BInt (z : Z).

(** The local variables of [chat] that live across loop iterations. *)
Record loop_vars := {
  sql_query : string;
  rows : option (list row);
  column_names : option (list string);
  error : option string;
  count_tries : Z;
}.

Definition lift {A} (r : result A) : M A := fun m => (r, m).

(** [rows, column_names, error = self._execute_sql_query(sql_query)] *)
Definition with_outcome (v : loop_vars) (out : exec_outcome) : loop_vars :=
  {| sql_query := sql_query v; rows := out_rows out;
     column_names := out_columns out; error := out_error out;
     count_tries := count_tries v |}.

(** [sql_query = self.fix_error_message(error)] then [count_tries += 1] *)
Definition retried (v : loop_vars) (q : string) : loop_vars :=
  {| sql_query := q; rows := rows v; column_names := column_names v;
     error := error v; count_tries := count_tries v + 1 |}.

Section Orchestrator.

Context (env : Env).

(** One pass through the body of the [while] loop of [chat]; [continue]
    stands for going round the loop again. *)
Definition retry_body
    (v : loop_vars) (continue : loop_vars -> M loop_vars) : M loop_vars :=
  out ← _execute_sql_query env (sql_query v);
  let v := with_outcome v out in
  match error v with
  | Some e =>
      if nonempty e then
        _log ("Query failed (attempt " +:+ pretty (count_tries v + 1)
              +:+ "): " +:+ e) "warning";;
        fixed ← try_except_ValueError
                  (q ← fix_error_message env e None None; mret (Some q))
                  (fun msg =>
                     _log ("Failed to fix query: " +:+ msg) "error";;
                     mret None);
        match fixed with
        | Some q => continue (retried v q)
        | None => mret v
        end
      else mret v
  | None => mret v
  end.

(** [while count_tries < max_retries: ...], by recursion on the loop
    variant [max_retries - count_tries]. *)
Fixpoint retry_loop (variant : nat) (max_retries : Z) (v : loop_vars)
    : M loop_vars :=
  match variant with
  | O => mret v
  | S n =>
      if count_tries v <? max_retries
      then retry_body v (retry_loop n max_retries)
      else mret v
  end.

Definition while_retry (max_retries : Z) (v : loop_vars) : M loop_vars :=
  retry_loop (Z.to_nat (max_retries - count_tries v)) max_retries v.

Definition exhausted_message (max_retries : Z) (sql_query error : string) : string :=
  "The SQL query could not be executed after " +:+ pretty max_retries
  +:+ " attempts." +:+ nl +:+ "Last generated query:" +:+ nl +:+ sql_query
  +:+ nl +:+ nl +:+ "Error:" +:+ nl +:+ error.

(** The part of [chat] after the loop: the exhausted-retries guard, then
    formatting, the informational log lines and the response bundle. *)
Definition conclude
    (natural_language_question : string) (max_retries : Z)
    (human_response : bool) (v : loop_vars) : M (gmap string bval) :=
  if (count_tries v =? max_retries) && truthy (error v) then
    let err_msg :=
      exhausted_message max_retries (sql_query v) (str_optional (error v)) in
    _log err_msg "error";;
    raise (ValueError err_msg)
  else
    let execution_time := elapsed env in
    query_results ← lift (_format_results (rows v) (column_names v));
    _log ("Natural Language Question: " +:+ natural_language_question) "info";;
    _log ("Final SQL Query: " +:+ sql_query v) "info";;
    _log ("Retries used: " +:+ pretty (count_tries v)) "info";;
    _log ("Execution Time: " +:+ str_float env execution_time +:+ " seconds") "info";;
    if human_response then
      answer ← generate_human_response env (str_results env query_results) None;
      mret (<["query" := BStr (sql_query v)]>
            (<["result" := BResults query_results]>
             (<["answer" := BStr answer]>
              (<["execution_time" := BFloat execution_time]>
               (<["retries" := BInt (count_tries v)]> ∅)))))
    else
      mret (<["query" := BStr (sql_query v)]>
            (<["results" := BResults query_results]>
             (<["execution_time" := BFloat execution_time]>
              (<["retries" := BInt (count_tries v)]> ∅)))).

Definition generation_failure : exn :=
  ValueError "Failed to generate a valid SQL query from the natural language question.".

(** The local variables of [chat] on entry to the loop. *)
Definition loop_entry (generated : string) : loop_vars :=
  {| sql_query := generated; rows := None; column_names := None;
     error := None; count_tries := 0 |}.

(** [EasyNQL.chat] *)
Definition chat
    (natural_language_question : string) (max_retries : Z)
    (human_response : bool) : M (gmap string bval) :=
  generated ← try_except_ValueError
                (generate_sql env natural_language_question)
                (fun _ => raise generation_failure);
  v ← while_retry max_retries (loop_entry generated);
  conclude natural_language_question max_retries human_response v.

End Orchestrator.

(** A fresh instance, as [__init__] leaves it, and then [connect]ed or not. *)
Definition new_instance (schema model dialect : string) (connected logging : bool)
    : Machine :=
  {| self := {| schema_text := schema; engine := connected; model := model;
                database_type := dialect; logs := logging;
                natural_language_question := None; generated_query := None |};
     trace := [] |}.
(** ** The safety gate in the words of its contract *)

(** The text of [s] before its first [c], all of [s] when [c] does not occur. *)
Fixpoint before_first (c : ascii) (s : string) : string :=
  match s with
  | EmptyString => EmptyString
  | String d r => if Ascii.eqb d c then EmptyString else String d (before_first c r)
  end.

(** The statement the gate looks at: before the first terminator, trimmed. *)
Definition single_statement (S : string) : string := strip (before_first SEMI S).

Definition gate_accepts (S : string) : bool :=
  startswith (upper (single_statement S)) "SELECT".

Definition unsafe_query_error : exn :=
  ValueError "A non-SELECT query was generated. Please try again.".

(** What every string chat may execute has to satisfy. *)
Definition gated (q : string) : Prop :=
  startswith (upper (strip q)) "SELECT" = true /\ has_char SEMI q = false.

(** The lines the cleaner keeps. *)
Definition keeps (line : string) : bool := negb (startswith line FENCE).

(** [replace] specialised to the stray marker, as the cleaner uses it. *)
Definition unmark (s : string) : string := replace MARKER EmptyString s.

(** A string that does not start with whitespace. *)
Definition clean_head (s : string) : bool :=
  match s with EmptyString => true | String c _ => negb (isspace c) end.

(** The kept lines of any text: marker free, newline free, not fenced. *)
Definition kept_lines (x : string) : list string :=
  List.filter keeps (split NL (unmark x)).

(** ** Observations on a run *)

(** The calls the properties count: to the execution adapter and to the
    repairer, with what each returned. *)
Inductive call :=
  | CExec (sql_query : string) (out : exec_outcome)
  | CRepair (error : string) (res : result string).

Fixpoint calls (tr : list event) : list call :=
  match tr with
  | [] => []
  | EvExecute q out :: rest => CExec q out :: calls rest
  | EvRepair e r :: rest => CRepair e r :: calls rest
  | _ :: rest => calls rest
  end.

(** The events a computation adds to the trace, and how it ends. *)
Definition events_of {A} (c : M A) (m : Machine) : list event :=
  drop (length (trace m)) (trace (snd (c m))).

Definition outcome_of {A} (c : M A) (m : Machine) : result A := fst (c m).

(** The adapter returns rows and columns, or an error text, never both. *)
Definition wf_outcome (out : exec_outcome) : Prop :=
  match out_error out with
  | None => is_Some (out_rows out) /\ is_Some (out_columns out)
  | Some _ => out_rows out = None /\ out_columns out = None
  end.

(** The machine after [_log]. *)
Definition logged (m : Machine) (message level : string) : Machine :=
  if logs (self m)
  then {| self := self m; trace := trace m ++ [EvLog level message] |}
  else m.

(** The loop of [chat] as the calls it makes: from the variables on entry,
    the calls issued, to the variables on exit. *)
Inductive loop_run (max_retries : Z) : loop_vars -> list call -> loop_vars -> Prop :=
  | run_exit v :
      ~ (count_tries v < max_retries) ->
      loop_run max_retries v [] v
  | run_success v out :
      count_tries v < max_retries ->
      wf_outcome out ->
      truthy (out_error out) = false ->
      loop_run max_retries v [CExec (sql_query v) out] (with_outcome v out)
  | run_give_up v out e msg :
      count_tries v < max_retries ->
      wf_outcome out ->
      out_error out = Some e -> nonempty e = true ->
      loop_run max_retries v
        [CExec (sql_query v) out; CRepair e (Raise (ValueError msg))]
        (with_outcome v out)
  | run_retry v out e q cs v' :
      count_tries v < max_retries ->
      wf_outcome out ->
      out_error out = Some e -> nonempty e = true ->
      gated q ->
      loop_run max_retries (retried (with_outcome v out) q) cs v' ->
      loop_run max_retries v
        (CExec (sql_query v) out :: CRepair e (Ok q) :: cs) v'.

(** No event of a computation is a call: it only logs or asks the backend. *)
Definition no_calls {A} (c : M A) : Prop :=
  forall m, exists new, trace (snd (c m)) = trace m ++ new /\ calls new = [].

(** A computation that leaves the attributes of [self] alone. *)
Definition keeps_self {A} (c : M A) : Prop :=
  forall m, self (snd (c m)) = self m.

(** A computation that raises nothing but [ValueError]. *)
Definition only_ValueError {A} (c : M A) : Prop :=
  forall m e, fst (c m) = Raise e -> exists msg, e = ValueError msg.

(** The machine of [generate_sql] once the backend has answered and both
    attributes are recorded, and what the backend answered. *)
Definition generated_content (env : Env) (question : string) (m : Machine) : string :=
  let s := set_natural_language_question question (self m) in
  let n := count_events is_backend (trace m) in
  ollama_chat env n (model s) (generate_system_prompt s)
    (generate_user_prompt s (strftime_now env n) question).

Definition after_generation (env : Env) (question : string) (m : Machine) : Machine :=
  let s := set_natural_language_question question (self m) in
  let n := count_events is_backend (trace m) in
  let content := generated_content env question m in
  {| self := set_generated_query content s;
     trace := trace m ++ [EvBackend (model s) (generate_system_prompt s)
                            (generate_user_prompt s (strftime_now env n) question)
                            content] |}.

Definition missing_question_error : exn :=
  ValueError "The natural_language_question parameter must be provided or a question must be generated first.".

(** The attribute an omitted argument falls back on, when it is usable. *)
Definition stored (attr : option string) : option string :=
  match attr with
  | Some v => if nonempty v then Some v else None
  | None => None
  end.

(** The two dictionaries [chat] can return. *)
Definition plain_bundle
    (query : string) (results : formatted) (time : Q) (retries : Z)
    : gmap string bval :=
  <["query" := BStr query]>
    (<["results" := BResults results]>
      (<["execution_time" := BFloat time]>
        (<["retries" := BInt retries]> ∅))).

Definition human_bundle
    (query : string) (results : formatted) (answer : string) (time : Q)
    (retries : Z) : gmap string bval :=
  <["query" := BStr query]>
    (<["result" := BResults results]>
      (<["answer" := BStr answer]>
        (<["execution_time" := BFloat time]>
          (<["retries" := BInt retries]> ∅)))).

Definition missing_query_error : exn :=
  ValueError "The sql_query parameter must be provided or a SQL query must be generated first.".

Definition missing_repair_question_error : exn :=
  ValueError "The question parameter must be provided or a natural language question must be generated first.".

(** ** Concrete runs *)

(** An instance over the schema of the end-to-end scenario, connected. *)
Definition orders_instance : Machine :=
  new_instance "orders(id, total)" "qwen2.5-coder:1.5b" "sqlite" true true.

(** The same instance with no database engine connected. *)
Definition offline_instance : Machine :=
  new_instance "orders(id, total)" "qwen2.5-coder:1.5b" "sqlite" false true.

(** The end-to-end scenario: the generator answers with one terminated
    statement and the database returns the single row [(42.0,)]. *)
Definition env_orders : Env :=
  {| ollama_chat := fun n _ _ _ =>
       match n with
       | O => "SELECT total FROM orders WHERE id=5;"
       | _ => "The total of order 5 is 42."
       end;
     db_execute := fun _ _ => inl ([[PFloat (42 # 1)]], ["total"]);
     strftime_now := fun _ => "2025-01-01 12:00:00";
     elapsed := 5 # 100;
     str_float := fun _ => "0.05";
     str_results := fun _ => "[{'total': 42.0}]" |}.

(** A database that fails every statement, and a backend that proposes a new
    query each time: [SELECT a], then [SELECT b], then [SELECT c]. *)
Definition env_failing : Env :=
  {| ollama_chat := fun n _ _ _ =>
       match n with
       | O => "SELECT a"
       | S O => "SELECT b"
       | _ => "SELECT c"
       end;
     db_execute := fun n _ =>
       match n with
       | O => inr "no such column: a"
       | _ => inr "no such column: b"
       end;
     strftime_now := fun _ => "2025-01-01 12:00:00";
     elapsed := 5 # 100;
     str_float := fun _ => "0.05";
     str_results := fun _ => "No results found." |}.

(** A database whose exception has an empty text. *)
Definition env_silent_failure : Env :=
  {| ollama_chat := fun _ _ _ _ => "SELECT a";
     db_execute := fun _ _ => inr EmptyString;
     strftime_now := fun _ => "2025-01-01 12:00:00";
     elapsed := 5 # 100;
     str_float := fun _ => "0.05";
     str_results := fun _ => "No results found." |}.

(** A backend whose repair is not a [SELECT]. *)
Definition env_bad_repair : Env :=
  {| ollama_chat := fun n _ _ _ =>
       match n with
       | O => "SELECT a"
       | S O => "DROP TABLE orders"
       | _ => "Nothing was found."
       end;
     db_execute := fun _ _ => inr "no such column: a";
     strftime_now := fun _ => "2025-01-01 12:00:00";
     elapsed := 5 # 100;
     str_float := fun _ => "0.05";
     str_results := fun _ => "No results found." |}.

(** The first query fails, the repaired one succeeds. *)
Definition env_repaired : Env :=
  {| ollama_chat := fun n _ _ _ =>
       match n with
       | O => "SELECT totl FROM orders WHERE id=5"
       | _ => "```sql" +:+ nl +:+ "SELECT total FROM orders WHERE id=5;" +:+ nl +:+ "```"
       end;
     db_execute := fun n _ =>
       match n with
       | O => inr "no such column: totl"
       | _ => inl ([[PFloat (42 # 1)]], ["total"])
       end;
     strftime_now := fun _ => "2025-01-01 12:00:00";
     elapsed := 5 # 100;
     str_float := fun _ => "0.05";
     str_results := fun _ => "[{'total': 42.0}]" |}.

(** A backend that terminates its statement, as generators usually do. *)
Definition env_terminated : Env :=
  {| ollama_chat := fun _ _ _ _ => "SELECT 1;";
     db_execute := fun _ _ => inl ([[PInt 1]], ["1"]);
     strftime_now := fun _ => "2025-01-01 12:00:00";
     elapsed := 5 # 100;
     str_float := fun _ => "0.05";
     str_results := fun _ => "[{'1': 1}]" |}.

(** Counting the calls of a run. *)
Fixpoint count_exec (cs : list call) : nat :=
  match cs with
  | [] => 0
  | CExec _ _ :: rest => S (count_exec rest)
  | CRepair _ _ :: rest => count_exec rest
  end.

Fixpoint count_repair (cs : list call) : nat :=
  match cs with
  | [] => 0
  | CExec _ _ :: rest => count_repair rest
  | CRepair _ _ :: rest => S (count_repair rest)
  end.

(** What the execution adapter returned, call after call. *)
Fixpoint exec_outcomes (cs : list call) : list exec_outcome :=
  match cs with
  | [] => []
  | CExec _ out :: rest => out :: exec_outcomes rest
  | CRepair _ _ :: rest => exec_outcomes rest
  end.

(** Every fetched row has a cell for every column, as a database returns. *)
Definition rows_fit (out : exec_outcome) : Prop :=
  forall rs cs,
    out_rows out = Some rs -> out_columns out = Some cs ->
    Forall (fun r : row => (length cs <= length r)%nat) rs.

(** The user prompts sent to the backend, in order. *)
Fixpoint user_prompts (tr : list event) : list string :=
  match tr with
  | [] => []
  | EvBackend _ _ user _ :: rest => user :: user_prompts rest
  | _ :: rest => user_prompts rest
  end.

(** The statements handed to the execution adapter, in order. *)
Fixpoint executed (tr : list event) : list string :=
  match tr with
  | [] => []
  | EvExecute q _ :: rest => q :: executed rest
  | _ :: rest => executed rest
  end.

(** How the repair calls ended, call after call. *)
Fixpoint repair_results (cs : list call) : list (result string) :=
  match cs with
  | [] => []
  | CExec _ _ :: rest => repair_results rest
  | CRepair _ r :: rest => r :: repair_results rest
  end.

Definition is_ok {A} (r : result A) : bool :=
  match r with Ok _ => true | Raise _ => false end.

(** The one row [(42.0,)] under the column [total]. *)
Definition one_total : exec_outcome :=
  {| out_rows := Some [[PFloat (42 # 1)]]; out_columns := Some ["total"];
     out_error := None |}.

(** ** Further observations *)

Definition is_log (e : event) : bool :=
  match e with EvLog _ _ => true | _ => false end.

(** What the adapter returns when no engine is connected. *)
Definition no_engine_outcome : exec_outcome :=
  {| out_rows := None; out_columns := None;
     out_error := Some "No database engine is connected." |}.

(** The sentinel of [_format_results]. *)
Definition no_results : formatted := FText "No results found.".

(** A row that has a cell for every column. *)
Definition row_fits (column_names : list string) (r : row) : Prop :=
  (length column_names <= length r)%nat.

(** The events [_log] adds. *)
Definition log_events (m : Machine) (message level : string) : list event :=
  if logs (self m) then [EvLog level message] else [].

(** The completion the backend gives to a repair prompt, and the machine once
    it has answered. *)
Definition repair_content
    (env : Env) (m : Machine) (question error sql : string) : string :=
  let n := count_events is_backend (trace m) in
  ollama_chat env n (model (self m)) (repair_system_prompt (self m))
    (repair_user_prompt (self m) (strftime_now env n) question error sql).

Definition repair_event
    (env : Env) (m : Machine) (question error sql : string) : event :=
  let n := count_events is_backend (trace m) in
  EvBackend (model (self m)) (repair_system_prompt (self m))
    (repair_user_prompt (self m) (strftime_now env n) question error sql)
    (repair_content env m question error sql).

(** The same for the human-response prompt. *)
Definition human_content
    (env : Env) (m : Machine) (question results : string) : string :=
  ollama_chat env (count_events is_backend (trace m)) (model (self m))
    (human_system_prompt (self m)) (human_user_prompt (self m) question results).

Definition human_event
    (env : Env) (m : Machine) (question results : string) : event :=
  EvBackend (model (self m)) (human_system_prompt (self m))
    (human_user_prompt (self m) question results)
    (human_content env m question results).

(** The argument of a call when it is usable, the stored attribute otherwise. *)
Definition arg_or_stored (arg attr : option string) : option string :=
  if truthy arg then arg else stored attr.


(** An instance that already holds a question and a raw completion. *)
Definition asked_instance : Machine :=
  {| self := set_generated_query "SELECT old FROM t;"
               (set_natural_language_question "old question?" (self orders_instance));
     trace := [] |}.

(** The repair calls of a run that returned a query. *)
Definition successful_repairs (cs : list call) : nat :=
  length (List.filter is_ok (repair_results cs)).

(** The value a bundle holds for the formatted results, under either key. *)
Definition bundle_results (human_response : bool) (b : gmap string bval)
    : option bval :=
  b !! (if human_response then "result" else "results").

(** What an event may be, given whether an engine is connected and whether
    logging is enabled: with no engine an execution returns the connection
    error, and with logging disabled nothing is logged. *)
Definition allowed (connected logging : bool) (e : event) : Prop :=
  match e with
  | EvExecute _ out => connected = false -> out = no_engine_outcome
  | EvLog _ _ => logging = true
  | _ => True
  end.

(** A computation that leaves the engine and the logging switch as they are
    and adds only allowed events. *)
Definition respects {A} (c : M A) : Prop :=
  forall m,
    engine (self (snd (c m))) = engine (self m)
    /\ logs (self (snd (c m))) = logs (self m)
    /\ exists new,
         trace (snd (c m)) = trace m ++ new
         /\ Forall (allowed (engine (self m)) (logs (self m))) new.

(** ** Connecting *)





(** ** Schema extraction ([extract_structure.py]) *)

(** What [extract_schema] reads of a reflected column: its name, [str] of
    its type, three flags, its default as the f-string prints it (a callable
    default already called), and the targets of its foreign keys. *)
Record Column := {
  column_name : string;
  column_type : string;
  column_nullable : bool;
  column_primary_key : bool;
  column_unique : bool;
  column_default : option string;
  column_foreign_keys : list string;
}.

Record Index := {
  index_name : string;
  index_columns : list string;
}.

(** A reflected table; [table_checks] holds the text of those of its
    constraints that are check constraints, in iteration order. *)
Record Table := {
  table_name : string;
  table_columns : list Column;
  table_indexes : list Index;
  table_checks : list string;
}.

Definition column_constraints (c : Column) : list string :=
  (if column_nullable c then [] else ["NOT NULL"])
  ++ (if column_primary_key c then ["PRIMARY KEY"] else [])
  ++ (if column_unique c then ["UNIQUE"] else [])
  ++ (match column_default c with
      | Some d => ["DEFAULT " +:+ d]
      | None => []
      end)
  ++ map (fun fk => "FOREIGN KEY -> " +:+ fk) (column_foreign_keys c).

Definition column_line (c : Column) : string :=
  "- " +:+ column_name c +:+ " (" +:+ column_type c +:+ " "
  +:+ join " " (column_constraints c) +:+ ")" +:+ nl.

Definition index_line (i : Index) : string :=
  "Index: " +:+ index_name i +:+ " on columns ("
  +:+ join ", " (index_columns i) +:+ ")" +:+ nl.

Definition check_line (sqltext : string) : string :=
  "Check Constraint: " +:+ sqltext +:+ nl.

(** The writes of one pass of the loop over the columns of a table. *)
Definition column_writes (t : Table) (c : Column) : list string :=
  column_line c
  :: map index_line (table_indexes t) ++ map check_line (table_checks t).

Definition table_writes (t : Table) : list string :=
  ("Table: " +:+ table_name t +:+ nl)
  :: concat (map (column_writes t) (table_columns t)) ++ [nl].

(** [extract_schema]: the strings written to the output file, in order. *)
Definition extract_schema (tables : list Table) : list string :=
  concat (map table_writes tables).

(** The writes that begin with a given tag. *)
Definition count_tagged (tag : string) (writes : list string) : nat :=
  length (List.filter (fun w => startswith w tag) writes).
(** ** Facts about the string primitives *)

Section StringFacts.

Implicit Types (s t p : string) (c : ascii).

Lemma prefix_nil s : String.prefix EmptyString s = true.
Proof. by destruct s. Qed.

Lemma prefix_cons a p c s :
  String.prefix (String a p) (String c s)
  = (if ascii_dec a c then String.prefix p s else false).
Proof. reflexivity. Qed.

Lemma prefix_cons_nil a p : String.prefix (String a p) EmptyString = false.
Proof. reflexivity. Qed.

Lemma app_nil_l s : EmptyString +:+ s = s.
Proof. reflexivity. Qed.

Lemma app_cons c s t : String c s +:+ t = String c (s +:+ t).
Proof. reflexivity. Qed.

Lemma string_app_assoc s t u : (s +:+ t) +:+ u = s +:+ (t +:+ u).
Proof.
  induction s as [|c s IH]; [done|]. by rewrite !app_cons, IH.
Qed.

Lemma string_app_nil_r s : s +:+ EmptyString = s.
Proof. induction s as [|c s IH]; [done|]. by rewrite app_cons, IH. Qed.

(** Induction on the length of a string. *)
Lemma string_length_ind (P : string -> Prop) :
  (forall s, (forall t, (String.length t < String.length s)%nat -> P t) -> P s) ->
  forall s, P s.
Proof.
  intros H s. remember (String.length s) as n eqn:Hn.
  revert s Hn. induction n as [n IH] using lt_wf_ind.
  intros s ->. apply H. intros t Ht. by apply (IH (String.length t)).
Qed.

(** *** [replace] of the stray marker *)

Lemma marker_prefix_inv s :
  String.prefix MARKER s = true -> exists r, s = MARKER +:+ r.
Proof.
  unfold MARKER. intros H.
  destruct s as [|c1 [|c2 [|c3 r]]];
    repeat (rewrite ?prefix_cons, ?prefix_cons_nil in H;
            match type of H with
            | context [ascii_dec ?a ?b] => destruct (ascii_dec a b); subst
            end);
    rewrite ?prefix_cons_nil in H; try discriminate.
  by exists r.
Qed.

Lemma unmark_nil : unmark EmptyString = EmptyString.
Proof. done. Qed.

Lemma unmark_marker r : unmark (MARKER +:+ r) = unmark r.
Proof. unfold unmark, replace. by destruct r. Qed.

Lemma unmark_cons c r :
  String.prefix MARKER (String c r) = false ->
  unmark (String c r) = String c (unmark r).
Proof.
  intros H. unfold unmark, replace.
  change (replace_from MARKER EmptyString 0 (String c r))
    with (if String.prefix MARKER (String c r)
          then EmptyString +:+ replace_from MARKER EmptyString
                                 (String.length MARKER - 1) r
          else String c (replace_from MARKER EmptyString 0 r)).
  by rewrite H.
Qed.

(** The three ways a string meets the marker scan. *)
Lemma marker_ind (P : string -> Prop) :
  P EmptyString ->
  (forall r, P r -> P (MARKER +:+ r)) ->
  (forall c r, String.prefix MARKER (String c r) = false -> P r -> P (String c r)) ->
  forall s, P s.
Proof.
  intros Hnil Hm Hc s. induction s as [s IH] using string_length_ind.
  destruct s as [|c r]; [done|].
  destruct (String.prefix MARKER (String c r)) eqn:Hp.
  - destruct (marker_prefix_inv _ Hp) as [r' E]. rewrite E in *. apply Hm, IH.
    change (String.length (MARKER +:+ r')) with (S (S (S (String.length r')))).
    lia.
  - apply Hc; [done|]. apply IH. simpl. lia.
Qed.

Lemma contains_nil sub : contains sub EmptyString = String.prefix sub EmptyString.
Proof. simpl. by rewrite orb_false_r. Qed.

Lemma contains_cons sub c r :
  contains sub (String c r) = String.prefix sub (String c r) || contains sub r.
Proof. reflexivity. Qed.

Lemma marker_head1 r :
  String.prefix ">" (unmark r) = true -> String.prefix ">" r = true.
Proof.
  destruct r as [|d r]; [by vm_compute|].
  destruct (String.prefix MARKER (String d r)) eqn:Hp.
  - destruct (marker_prefix_inv _ Hp) as [r' ->]. done.
  - rewrite unmark_cons by done. rewrite !prefix_cons.
    destruct (ascii_dec ">" d); [by rewrite !prefix_nil | done].
Qed.

Lemma marker_head2 r :
  String.prefix ">>" (unmark r) = true -> String.prefix ">>" r = true.
Proof.
  destruct r as [|d r]; [by vm_compute|].
  destruct (String.prefix MARKER (String d r)) eqn:Hp.
  - destruct (marker_prefix_inv _ Hp) as [r' ->]. done.
  - rewrite unmark_cons by done. rewrite !prefix_cons.
    destruct (ascii_dec ">" d); [|done]. apply marker_head1.
Qed.

Lemma marker_head3 c r :
  String.prefix MARKER (String c (unmark r)) = true ->
  String.prefix MARKER (String c r) = true.
Proof.
  unfold MARKER. rewrite !prefix_cons.
  destruct (ascii_dec ">" c); [|done]. apply marker_head2.
Qed.

(** After the replacement no occurrence of the marker is left. *)
Lemma unmark_no_marker s : contains MARKER (unmark s) = false.
Proof.
  induction s as [|r IH|c r Hp IH] using marker_ind.
  - done.
  - by rewrite unmark_marker.
  - rewrite unmark_cons, contains_cons, IH, orb_false_r by done.
    destruct (String.prefix MARKER (String c (unmark r))) eqn:E; [|done].
    apply marker_head3 in E. congruence.
Qed.

Lemma unmark_fixed s : contains MARKER s = false -> unmark s = s.
Proof.
  induction s as [|c r IH]; [done|].
  rewrite contains_cons. intros [Hp Hr]%orb_false_elim.
  rewrite unmark_cons by done. by rewrite IH.
Qed.

Lemma unmark_idemp s : unmark (unmark s) = unmark s.
Proof. apply unmark_fixed, unmark_no_marker. Qed.

(** A pattern free of [c] that starts [u c t] already starts [u]. *)
Lemma prefix_before_sep c p u t :
  has_char c p = false ->
  String.prefix p (u +:+ String c t) = true -> String.prefix p u = true.
Proof.
  revert u. induction p as [|a p IH]; intros u Hc H.
  - apply prefix_nil.
  - simpl in Hc. apply orb_false_elim in Hc as [Ha Hp].
    apply Ascii.eqb_neq in Ha.
    destruct u as [|b u].
    + rewrite app_nil_l, prefix_cons in H.
      destruct (ascii_dec a c); [done | discriminate].
    + rewrite app_cons, prefix_cons in H. rewrite prefix_cons.
      destruct (ascii_dec a b); [|done]. by apply IH.
Qed.

Lemma unmark_app_nl p t :
  unmark (p +:+ String NL t) = unmark p +:+ String NL (unmark t).
Proof.
  induction p as [|r IH|c r Hp IH] using marker_ind.
  - rewrite app_nil_l. by rewrite unmark_cons.
  - rewrite string_app_assoc, !unmark_marker. apply IH.
  - rewrite app_cons, !unmark_cons, ?app_cons, ?IH; [done..|].
    destruct (String.prefix MARKER (String c (r +:+ String NL t))) eqn:E; [|done].
    rewrite <- app_cons in E. apply prefix_before_sep in E; [congruence|done].
Qed.

Lemma join_cons2 sep p q rest :
  join sep (p :: q :: rest) = p +:+ sep +:+ join sep (q :: rest).
Proof. reflexivity. Qed.

Lemma unmark_join parts :
  unmark (join nl parts) = join nl (map unmark parts).
Proof.
  induction parts as [|p [|q rest] IH]; [done..|].
  rewrite join_cons2. change (map unmark (p :: q :: rest))
    with (unmark p :: unmark q :: map unmark rest).
  rewrite join_cons2. unfold nl at 1 3. rewrite !app_cons, !app_nil_l.
  by rewrite unmark_app_nl, IH.
Qed.

Lemma unmark_keeps_free c s :
  has_char c s = false -> has_char c (unmark s) = false.
Proof.
  induction s as [|r IH|d r Hp IH] using marker_ind; [done|..].
  - rewrite unmark_marker. unfold MARKER. rewrite !app_cons, app_nil_l.
    simpl. intros H. apply IH.
    repeat (apply orb_false_elim in H as [_ H]). done.
  - rewrite unmark_cons by done. simpl.
    intros [? ?]%orb_false_elim. rewrite IH by done. by rewrite orb_false_r.
Qed.

(** *** [split] and [join] *)

Lemma split_not_nil c s : split c s <> [].
Proof.
  destruct s as [|d r]; simpl; [done|].
  destruct (Ascii.eqb d c); [done|]. by destruct (split c r).
Qed.

Lemma join_cons_head sep d h rest :
  join sep (String d h :: rest) = String d (join sep (h :: rest)).
Proof. by destruct rest. Qed.

Lemma join_split c s : join (String c EmptyString) (split c s) = s.
Proof.
  induction s as [|d r IH]; [done|]. simpl.
  destruct (Ascii.eqb_spec d c) as [->|Hd].
  - pose proof (split_not_nil c r) as Hn.
    destruct (split c r) as [|q rest]; [done|].
    rewrite join_cons2, IH. done.
  - pose proof (split_not_nil c r) as Hn.
    destruct (split c r) as [|q rest]; [done|].
    by rewrite join_cons_head, IH.
Qed.

Lemma split_sep_free c s :
  Forall (fun l => has_char c l = false) (split c s).
Proof.
  induction s as [|d r IH]; simpl; [by constructor|].
  destruct (Ascii.eqb d c) eqn:Hd; [by constructor|].
  destruct (split c r) as [|h t]; [constructor; [|done]; simpl; by rewrite Hd|].
  inversion IH; subst. constructor; [|done]. simpl. by rewrite Hd.
Qed.

Lemma split_free c s : has_char c s = false -> split c s = [s].
Proof.
  induction s as [|d r IH]; [done|]. simpl.
  intros [Hd Hr]%orb_false_elim. rewrite Hd, IH; done.
Qed.

Lemma split_app_sep c p t :
  has_char c p = false ->
  split c (p +:+ String c t) = p :: split c t.
Proof.
  induction p as [|d r IH]; intros H.
  - rewrite app_nil_l. simpl. by rewrite Ascii.eqb_refl.
  - simpl in H. apply orb_false_elim in H as [Hd Hr].
    rewrite app_cons. simpl. rewrite Hd, IH; done.
Qed.

Lemma split_join c parts :
  parts <> [] ->
  Forall (fun l => has_char c l = false) parts ->
  split c (join (String c EmptyString) parts) = parts.
Proof.
  induction parts as [|p [|q rest] IH]; intros Hn Hf; [done|..].
  - inversion Hf; subst. by apply split_free.
  - inversion Hf; subst. rewrite join_cons2, app_cons, app_nil_l.
    rewrite split_app_sep by done. rewrite IH; done.
Qed.

Lemma contains_app_nl p t :
  contains MARKER p = false -> contains MARKER t = false ->
  contains MARKER (p +:+ String NL t) = false.
Proof.
  intros Hp Ht. induction p as [|c r IH].
  - rewrite app_nil_l, contains_cons, Ht. done.
  - rewrite contains_cons in Hp. apply orb_false_elim in Hp as [H1 H2].
    rewrite app_cons, contains_cons, IH, orb_false_r by done.
    destruct (String.prefix MARKER (String c (r +:+ String NL t))) eqn:E; [|done].
    rewrite <- app_cons in E. apply prefix_before_sep in E; [congruence|done].
Qed.

Lemma contains_join parts :
  Forall (fun l => contains MARKER l = false) parts ->
  contains MARKER (join nl parts) = false.
Proof.
  induction parts as [|p [|q rest] IH]; intros Hf; [done|..].
  - by inversion Hf.
  - inversion Hf; subst. rewrite join_cons2. unfold nl at 1.
    rewrite app_cons, app_nil_l. apply contains_app_nl; [done|]. by apply IH.
Qed.

End StringFacts.
Section StripFacts.

Implicit Types (s : string) (c : ascii).

Lemma lstrip_clean_head s : clean_head (lstrip s) = true.
Proof.
  induction s as [|c r IH]; [done|]. simpl.
  destruct (isspace c) eqn:E; [done|]. simpl. by rewrite E.
Qed.

Lemma lstrip_fixed s : clean_head s = true -> lstrip s = s.
Proof.
  destruct s as [|c r]; [done|]. simpl.
  by destruct (isspace c).
Qed.

Lemma rstrip_clean_head s : clean_head s = true -> clean_head (rstrip s) = true.
Proof.
  destruct s as [|c r]; [done|]. simpl.
  destruct (isspace c) eqn:E; [done|]. intros _.
  destruct (rstrip r); simpl; by rewrite ?E.
Qed.

Lemma rstrip_idemp s : rstrip (rstrip s) = rstrip s.
Proof.
  induction s as [|c r IH]; [done|]. simpl.
  destruct (rstrip r) as [|e r'] eqn:E.
  - destruct (isspace c) eqn:Hc; [done|]. simpl. by rewrite Hc.
  - change (rstrip (String c (String e r')))
      with (match rstrip (String e r') with
            | EmptyString =>
                if isspace c then EmptyString else String c EmptyString
            | x => String c x
            end).
    by rewrite IH.
Qed.

Lemma strip_idemp s : strip (strip s) = strip s.
Proof.
  unfold strip.
  rewrite (lstrip_fixed (rstrip (lstrip s)))
    by apply rstrip_clean_head, lstrip_clean_head.
  apply rstrip_idemp.
Qed.


Lemma lstrip_free c s : has_char c s = false -> has_char c (lstrip s) = false.
Proof.
  induction s as [|d r IH]; [done|]. simpl.
  intros [Hd Hr]%orb_false_elim.
  destruct (isspace d); [by apply IH|]. simpl. by rewrite Hd, Hr.
Qed.

Lemma rstrip_free c s : has_char c s = false -> has_char c (rstrip s) = false.
Proof.
  induction s as [|d r IH]; [done|]. simpl.
  intros [Hd Hr]%orb_false_elim. specialize (IH Hr).
  destruct (rstrip r) as [|e r'].
  - destruct (isspace d); [done|]. simpl. by rewrite Hd.
  - change (has_char c (String d (String e r')))
      with (Ascii.eqb d c || has_char c (String e r')).
    by rewrite Hd, IH.
Qed.

Lemma strip_free c s : has_char c s = false -> has_char c (strip s) = false.
Proof. intros H. by apply rstrip_free, lstrip_free. Qed.

Lemma before_first_free c s : has_char c (before_first c s) = false.
Proof.
  induction s as [|d r IH]; [done|]. simpl.
  destruct (Ascii.eqb d c) eqn:E; [done|]. simpl. by rewrite E, IH.
Qed.

(** [s.split(c)[0]] is the text before the first [c]. *)
Lemma hd_split c s : hd EmptyString (split c s) = before_first c s.
Proof.
  induction s as [|d r IH]; [done|]. simpl.
  destruct (Ascii.eqb d c); [done|].
  destruct (split c r); simpl in *; by rewrite <- IH.
Qed.



End StripFacts.

Section CleanerFacts.

Lemma clear_unfold x :
  _clear_llm_response x =
  join nl (List.filter keeps (split NL (unmark x))).
Proof. reflexivity. Qed.

(** Removing the marker works line by line. *)
Lemma split_unmark x : split NL (unmark x) = map unmark (split NL x).
Proof.
  rewrite <- (join_split NL x) at 1. fold nl.
  rewrite unmark_join. apply split_join.
  - pose proof (split_not_nil NL x). by destruct (split NL x).
  - apply Forall_map. eapply Forall_impl; [apply split_sep_free|].
    intros l Hl. by apply unmark_keeps_free.
Qed.

Lemma filter_fixed {A} (f : A -> bool) (l : list A) :
  Forall (fun x => f x = true) l -> List.filter f l = l.
Proof.
  induction 1 as [|x l Hx _ IH]; [done|]. simpl. by rewrite Hx, IH.
Qed.

Lemma Forall_filter_in {A} (P : A -> Prop) (f : A -> bool) (l : list A) :
  Forall P l -> Forall P (List.filter f l).
Proof.
  induction 1 as [|x l Hx _ IH]; [done|]. simpl.
  destruct (f x); [by constructor | done].
Qed.

Lemma Forall_filter_true {A} (f : A -> bool) (l : list A) :
  Forall (fun x => f x = true) (List.filter f l).
Proof.
  induction l as [|x l IH]; [done|]. simpl.
  destruct (f x) eqn:E; [by constructor | done].
Qed.

Lemma map_fixed {A} (f : A -> A) (l : list A) :
  Forall (fun x => f x = x) l -> map f l = l.
Proof. induction 1 as [|x l Hx _ IH]; [done|]. simpl. by rewrite Hx, IH. Qed.

Lemma kept_lines_marker_free x :
  Forall (fun l => contains MARKER l = false) (kept_lines x).
Proof.
  unfold kept_lines. apply Forall_filter_in. rewrite split_unmark.
  apply Forall_map, Forall_forall. intros l _. apply unmark_no_marker.
Qed.

Lemma kept_lines_newline_free x :
  Forall (fun l => has_char NL l = false) (kept_lines x).
Proof. apply Forall_filter_in, split_sep_free. Qed.

Lemma kept_lines_join x :
  kept_lines x <> [] -> kept_lines (join nl (kept_lines x)) = kept_lines x.
Proof.
  intros Hn. unfold kept_lines at 1.
  rewrite unmark_fixed by apply contains_join, kept_lines_marker_free.
  unfold nl. rewrite split_join by (done || apply kept_lines_newline_free).
  apply filter_fixed, Forall_filter_true.
Qed.

Lemma clear_idempotent x :
  _clear_llm_response (_clear_llm_response x) = _clear_llm_response x.
Proof.
  rewrite !clear_unfold. fold (kept_lines x).
  destruct (kept_lines x) as [|l ls] eqn:E; [done|].
  rewrite <- E. fold (kept_lines (join nl (kept_lines x))).
  rewrite kept_lines_join; [done|]. by rewrite E.
Qed.

End CleanerFacts.

(** ** Stepping through monadic code *)

Section MonadFacts.

Context {A B : Type}.

Lemma bind_ok (c : M A) (k : A -> M B) m a m1 :
  c m = (Ok a, m1) -> (c ≫= k) m = k a m1.
Proof. intros H. unfold mbind, M_bind, bind. by rewrite H. Qed.

Lemma bind_raise (c : M A) (k : A -> M B) m e m1 :
  c m = (Raise e, m1) -> (c ≫= k) m = (Raise e, m1).
Proof. intros H. unfold mbind, M_bind, bind. by rewrite H. Qed.

Lemma try_ok (c : M A) h m a m1 :
  c m = (Ok a, m1) -> try_except_ValueError c h m = (Ok a, m1).
Proof. intros H. unfold try_except_ValueError. by rewrite H. Qed.

Lemma try_caught (c : M A) h m msg m1 :
  c m = (Raise (ValueError msg), m1) ->
  try_except_ValueError c h m = h msg m1.
Proof. intros H. unfold try_except_ValueError. by rewrite H. Qed.

End MonadFacts.

Lemma log_run message level m :
  _log message level m = (Ok tt, logged m message level).
Proof.
  unfold _log, logged, mbind, M_bind, bind, get_self, emit, mret, M_ret, ret.
  by destruct (logs (self m)).
Qed.

Lemma logged_self m message level : self (logged m message level) = self m.
Proof. unfold logged. by destruct (logs (self m)). Qed.

Lemma calls_app tr1 tr2 : calls (tr1 ++ tr2) = calls tr1 ++ calls tr2.
Proof.
  induction tr1 as [|ev tr1 IH]; [done|].
  destruct ev; simpl; by rewrite ?IH.
Qed.

Lemma logged_trace m message level :
  exists new, trace (logged m message level) = trace m ++ new /\ calls new = [].
Proof.
  unfold logged. destruct (logs (self m)).
  - by eexists.
  - exists []. by rewrite app_nil_r.
Qed.

(** *** Computations that make no call and keep [self] *)

Section Quiet.

Context (env : Env).

Lemma no_calls_ret {A} (a : A) : no_calls (mret a : M A).
Proof. intros m. exists []. by rewrite app_nil_r. Qed.

Lemma no_calls_raise {A} e : no_calls (raise e : M A).
Proof. intros m. exists []. by rewrite app_nil_r. Qed.

Lemma no_calls_lift {A} (r : result A) : no_calls (lift r).
Proof. intros m. exists []. by rewrite app_nil_r. Qed.

Lemma no_calls_bind {A B} (c : M A) (k : A -> M B) :
  no_calls c -> (forall a, no_calls (k a)) -> no_calls (c ≫= k).
Proof.
  intros Hc Hk m. unfold mbind, M_bind, bind.
  destruct (Hc m) as (n1 & H1 & C1).
  destruct (c m) as [[a|e] m1]; simpl in *.
  - destruct (Hk a m1) as (n2 & H2 & C2).
    exists (n1 ++ n2). rewrite H2, H1, calls_app, C1, C2. by rewrite app_assoc.
  - by exists n1.
Qed.

Lemma no_calls_try {A} (c : M A) h :
  no_calls c -> (forall msg, no_calls (h msg)) ->
  no_calls (try_except_ValueError c h).
Proof.
  intros Hc Hh m. unfold try_except_ValueError.
  destruct (Hc m) as (n1 & H1 & C1).
  destruct (c m) as [[a|[msg|]] m1]; simpl in *; [by exists n1| |by exists n1].
  destruct (Hh msg m1) as (n2 & H2 & C2).
  exists (n1 ++ n2). rewrite H2, H1, calls_app, C1, C2. by rewrite app_assoc.
Qed.

Lemma no_calls_log message level : no_calls (_log message level).
Proof. intros m. rewrite log_run. apply logged_trace. Qed.

Lemma no_calls_get_self : no_calls get_self.
Proof. intros m. exists []. by rewrite app_nil_r. Qed.

Lemma no_calls_set_self s : no_calls (set_self s).
Proof. intros m. exists []. simpl. by rewrite app_nil_r. Qed.

Lemma no_calls_now : no_calls (now env).
Proof. intros m. exists []. by rewrite app_nil_r. Qed.

Lemma no_calls_backend system user : no_calls (backend_chat env system user).
Proof. intros m. by eexists. Qed.

Lemma no_calls_or_stored arg attr msg : no_calls (or_stored arg attr msg).
Proof.
  unfold or_stored.
  destruct arg as [a|]; [destruct (nonempty a)|];
    try destruct attr as [x|]; try destruct (nonempty x);
    (apply no_calls_ret || apply no_calls_raise).
Qed.

Lemma keeps_self_ret {A} (a : A) : keeps_self (mret a : M A).
Proof. done. Qed.

Lemma keeps_self_raise {A} e : keeps_self (raise e : M A).
Proof. done. Qed.

Lemma keeps_self_lift {A} (r : result A) : keeps_self (lift r).
Proof. done. Qed.

Lemma keeps_self_bind {A B} (c : M A) (k : A -> M B) :
  keeps_self c -> (forall a, keeps_self (k a)) -> keeps_self (c ≫= k).
Proof.
  intros Hc Hk m. unfold mbind, M_bind, bind.
  specialize (Hc m). destruct (c m) as [[a|e] m1]; simpl in *; [|done].
  by rewrite Hk.
Qed.

Lemma keeps_self_try {A} (c : M A) h :
  keeps_self c -> (forall msg, keeps_self (h msg)) ->
  keeps_self (try_except_ValueError c h).
Proof.
  intros Hc Hh m. unfold try_except_ValueError.
  specialize (Hc m). destruct (c m) as [[a|[msg|]] m1]; simpl in *; [done| |done].
  by rewrite Hh.
Qed.

Lemma keeps_self_log message level : keeps_self (_log message level).
Proof. intros m. rewrite log_run. apply logged_self. Qed.

Lemma keeps_self_get_self : keeps_self get_self.
Proof. done. Qed.

Lemma keeps_self_now : keeps_self (now env).
Proof. done. Qed.

Lemma keeps_self_backend system user : keeps_self (backend_chat env system user).
Proof. done. Qed.

Lemma keeps_self_or_stored arg attr msg : keeps_self (or_stored arg attr msg).
Proof.
  unfold or_stored.
  destruct arg as [a|]; [destruct (nonempty a)|];
    try destruct attr as [x|]; try destruct (nonempty x); done.
Qed.

Lemma only_ValueError_ret {A} (a : A) : only_ValueError (mret a : M A).
Proof. intros m e H. discriminate. Qed.

Lemma only_ValueError_raise {A} msg : only_ValueError (raise (ValueError msg) : M A).
Proof. intros m e H. simpl in H. injection H as <-. by eexists. Qed.

Lemma only_ValueError_bind {A B} (c : M A) (k : A -> M B) :
  only_ValueError c -> (forall a, only_ValueError (k a)) ->
  only_ValueError (c ≫= k).
Proof.
  intros Hc Hk m e. unfold mbind, M_bind, bind.
  specialize (Hc m). destruct (c m) as [[a|e'] m1]; simpl in *.
  - apply Hk.
  - intros [= <-]. by apply Hc.
Qed.

Lemma only_ValueError_log message level : only_ValueError (_log message level).
Proof. intros m e. by rewrite log_run. Qed.

Lemma only_ValueError_get_self : only_ValueError get_self.
Proof. intros m e H. discriminate. Qed.

Lemma only_ValueError_now : only_ValueError (now env).
Proof. intros m e H. discriminate. Qed.

Lemma only_ValueError_backend system user :
  only_ValueError (backend_chat env system user).
Proof. intros m e H. discriminate. Qed.

Lemma only_ValueError_or_stored arg attr msg :
  only_ValueError (or_stored arg attr msg).
Proof.
  unfold or_stored.
  destruct arg as [a|]; [destruct (nonempty a)|];
    try destruct attr as [x|]; try destruct (nonempty x);
    (apply only_ValueError_ret || apply only_ValueError_raise).
Qed.

End Quiet.

Create HintDb quiet.
#[local] Hint Resolve no_calls_ret no_calls_raise no_calls_lift no_calls_log
  no_calls_get_self no_calls_set_self no_calls_now no_calls_backend
  no_calls_or_stored
  keeps_self_ret keeps_self_raise keeps_self_lift keeps_self_log
  keeps_self_get_self keeps_self_now keeps_self_backend keeps_self_or_stored
  only_ValueError_ret only_ValueError_raise only_ValueError_log
  only_ValueError_get_self only_ValueError_now only_ValueError_backend
  only_ValueError_or_stored : quiet.

(** Splits a property of a sequence of binds into its steps. *)
Ltac quiet :=
  repeat first
    [ solve [eauto with quiet]
    | apply no_calls_bind; [|intros ?]
    | apply keeps_self_bind; [|intros ?]
    | apply only_ValueError_bind; [|intros ?]
    | apply no_calls_try; [|intros ?]
    | apply keeps_self_try; [|intros ?] ].

(** ** The methods, step by step *)

Section MethodFacts.

Context (env : Env).

Lemma bind_inv_ok {A B} (c : M A) (k : A -> M B) m b m' :
  (c ≫= k) m = (Ok b, m') ->
  exists a m1, c m = (Ok a, m1) /\ k a m1 = (Ok b, m').
Proof.
  unfold mbind, M_bind, bind. destruct (c m) as [[a|e] m1]; [|done].
  intros H. by exists a, m1.
Qed.

Lemma is_safe_query_run query m :
  _is_safe_query query m =
    if gate_accepts query then (Ok (single_statement query), m)
    else (Raise unsafe_query_error,
          logged m ("Query is not a SELECT statement: "
                    +:+ before_first SEMI query) "error").
Proof.
  unfold _is_safe_query, gate_accepts, single_statement. rewrite hd_split.
  destruct (startswith (upper (strip (before_first SEMI query))) "SELECT");
    [done|].
  by rewrite (bind_ok _ _ _ _ _ (log_run _ _ _)).
Qed.

Lemma no_calls_is_safe_query query : no_calls (_is_safe_query query).
Proof.
  intros m. rewrite is_safe_query_run. destruct (gate_accepts query).
  - exists []. by rewrite app_nil_r.
  - apply logged_trace.
Qed.

Lemma keeps_self_is_safe_query query : keeps_self (_is_safe_query query).
Proof.
  intros m. rewrite is_safe_query_run.
  destruct (gate_accepts query); [done | apply logged_self].
Qed.

Lemma only_ValueError_is_safe_query query : only_ValueError (_is_safe_query query).
Proof.
  intros m e. rewrite is_safe_query_run.
  destruct (gate_accepts query); [done|]. intros [= <-]. by eexists.
Qed.

#[local] Hint Resolve no_calls_is_safe_query keeps_self_is_safe_query
  only_ValueError_is_safe_query : quiet.

Lemma single_statement_gated S :
  gate_accepts S = true -> gated (single_statement S).
Proof.
  unfold gate_accepts, gated, single_statement. intros H. split.
  - by rewrite strip_idemp.
  - apply strip_free, before_first_free.
Qed.

Lemma is_safe_query_ok query m q m' :
  _is_safe_query query m = (Ok q, m') ->
  gate_accepts query = true /\ q = single_statement query /\ m' = m.
Proof.
  rewrite is_safe_query_run. destruct (gate_accepts query); [|done].
  by intros [= <- <-].
Qed.

Lemma generate_sql_run question m :
  generate_sql env question m =
    let content := generated_content env question m in
    let m3 := after_generation env question m in
    let clear := _clear_llm_response content in
    if gate_accepts clear
    then (Ok (single_statement clear),
          logged m3 ("Generated SQL: " +:+ single_statement clear) "debug")
    else (Raise unsafe_query_error,
          logged m3 ("Query is not a SELECT statement: "
                     +:+ before_first SEMI clear) "error").
Proof.
  unfold generate_sql, mbind, M_bind, bind, get_self, set_self, now, backend_chat.
  cbn -[_is_safe_query _log generate_system_prompt generate_user_prompt
        _clear_llm_response].
  rewrite is_safe_query_run.
  fold (generated_content env question m).
  destruct (gate_accepts _); [|done].
  by rewrite log_run.
Qed.

Lemma no_calls_generate_sql question : no_calls (generate_sql env question).
Proof.
  unfold generate_sql. quiet.
Qed.

Lemma fix_body_no_calls e question sql :
  no_calls (fix_error_message_body env e question sql).
Proof. unfold fix_error_message_body. quiet. Qed.

Lemma fix_body_keeps_self e question sql :
  keeps_self (fix_error_message_body env e question sql).
Proof. unfold fix_error_message_body. quiet. Qed.

Lemma fix_body_only_ValueError e question sql :
  only_ValueError (fix_error_message_body env e question sql).
Proof.
  unfold fix_error_message_body. quiet.
Qed.

Lemma fix_body_gated e question sql m q m' :
  fix_error_message_body env e question sql m = (Ok q, m') -> gated q.
Proof.
  unfold fix_error_message_body. intros H.
  do 5 (apply bind_inv_ok in H as (? & ? & _ & H)).
  apply bind_inv_ok in H as (fixed & m4 & Hg & H).
  apply bind_inv_ok in H as (? & ? & _ & H).
  injection H as <- _.
  apply is_safe_query_ok in Hg as (Hg & -> & _).
  by apply single_statement_gated.
Qed.

End MethodFacts.

(** ** The retry loop as a sequence of calls *)

Section LoopFacts.

Context (env : Env).

Lemma fix_error_message_spec e question sql m :
  exists r m1 pre,
    fix_error_message env e question sql m = (r, m1)
    /\ self m1 = self m
    /\ trace m1 = trace m ++ pre ++ [EvRepair e r]
    /\ calls pre = []
    /\ (forall q, r = Ok q -> gated q)
    /\ (forall x, r = Raise x -> exists msg, x = ValueError msg).
Proof.
  unfold fix_error_message.
  pose proof (fix_body_no_calls env e question sql m) as (pre & Ht & Hc).
  pose proof (fix_body_keeps_self env e question sql m) as Hs.
  pose proof (fix_body_only_ValueError env e question sql m) as Hv.
  pose proof (fix_body_gated env e question sql m) as Hg.
  destruct (fix_error_message_body env e question sql m) as [r mb].
  simpl in *. eexists r, _, pre. split_and!; [reflexivity|done| |done| |].
  - simpl. by rewrite Ht, app_assoc.
  - intros q ->. by eapply Hg.
  - intros x ->. by apply Hv.
Qed.

Lemma execute_run sql m :
  exists out,
    _execute_sql_query env sql m
    = (Ok out, {| self := self m; trace := trace m ++ [EvExecute sql out] |})
    /\ wf_outcome out.
Proof.
  unfold _execute_sql_query. eexists. split; [reflexivity|].
  unfold wf_outcome.
  destruct (engine (self m)); [|done].
  destruct (db_execute env _ sql) as [[rs cs]|msg]; simpl; eauto.
Qed.

Lemma retry_loop_spec max_retries n :
  forall v m,
    (Z.to_nat (max_retries - count_tries v) <= n)%nat ->
    exists v' m' new,
      retry_loop env n max_retries v m = (Ok v', m')
      /\ self m' = self m
      /\ trace m' = trace m ++ new
      /\ loop_run max_retries v (calls new) v'.
Proof.
  induction n as [|n IH]; intros v m Hn.
  { exists v, m, []. simpl. rewrite app_nil_r. split_and!; try done.
    apply run_exit. lia. }
  simpl. destruct (Z.ltb_spec (count_tries v) max_retries) as [Hlt|Hge].
  2: { exists v, m, []. simpl. rewrite app_nil_r. split_and!; try done.
       apply run_exit. lia. }
  unfold retry_body.
  destruct (execute_run (sql_query v) m) as (out & Hex & Hwf).
  rewrite (bind_ok _ _ _ _ _ Hex). clear Hex.
  set (m1 := {| self := self m;
                trace := trace m ++ [EvExecute (sql_query v) out] |}).
  cbv zeta. change (error (with_outcome v out)) with (out_error out).
  assert (forall e', out_error out = e' -> truthy e' = false ->
          exists v' m' new,
            (mret (with_outcome v out) : M loop_vars) m1 = (Ok v', m')
            /\ self m' = self m /\ trace m' = trace m ++ new
            /\ loop_run max_retries v (calls new) v') as Hsuccess.
  { intros e' He Hf. exists (with_outcome v out), m1, [EvExecute (sql_query v) out].
    split_and!; try done. simpl. apply run_success; [done..|]. by rewrite He. }
  destruct (out_error out) as [e|] eqn:He; [|by apply (Hsuccess None)].
  destruct (nonempty e) eqn:Hne; [|by apply (Hsuccess (Some e))].
  clear Hsuccess.
  rewrite (bind_ok _ _ _ _ _ (log_run _ _ _)).
  match goal with |- context [logged m1 ?msg ?lvl] =>
    set (m2 := logged m1 msg lvl);
    destruct (logged_trace m1 msg lvl) as (lg & Hlg & Clg);
    pose proof (logged_self m1 msg lvl) as Hs2
  end.
  fold m2 in Hlg, Hs2.
  destruct (fix_error_message_spec e None None m2)
    as (r & m3 & pre & Hfix & Hs3 & Ht3 & Cpre & Hg & Hv).
  destruct r as [q|x].
  - rewrite (bind_ok _ _ m2 (Some q) m3)
      by (apply try_ok; by rewrite (bind_ok _ _ _ _ _ Hfix)).
    destruct (IH (retried (with_outcome v out) q) m3)
      as (v' & m' & new & Hrun & Hs & Ht & Hl); [simpl; lia|].
    exists v', m', ([EvExecute (sql_query v) out] ++ lg ++ pre
                    ++ [EvRepair e (Ok q)] ++ new).
    split_and!; [done| | |].
    + by rewrite Hs, Hs3, Hs2.
    + rewrite Ht, Ht3, Hlg. simpl. by rewrite <- !app_assoc.
    + rewrite !calls_app, Clg, Cpre. simpl.
      eapply run_retry; eauto.
  - destruct (Hv x eq_refl) as [msg ->].
    match goal with |- context [try_except_ValueError ?c ?h] =>
      assert (try_except_ValueError c h m2
              = (Ok None, logged m3 ("Failed to fix query: " +:+ msg) "error"))
        as Htry
    end.
    { rewrite (try_caught _ _ _ msg m3) by (by rewrite (bind_raise _ _ _ _ _ Hfix)).
      by rewrite (bind_ok _ _ _ _ _ (log_run _ _ _)). }
    rewrite (bind_ok _ _ _ _ _ Htry). clear Htry.
    destruct (logged_trace m3 ("Failed to fix query: " +:+ msg) "error")
      as (lg' & Hlg' & Clg').
    eexists (with_outcome v out), _,
      ([EvExecute (sql_query v) out] ++ lg ++ pre
       ++ [EvRepair e (Raise (ValueError msg))] ++ lg').
    split_and!; [done| | |].
    + by rewrite logged_self, Hs3, Hs2.
    + rewrite Hlg', Ht3, Hlg. simpl. by rewrite <- !app_assoc.
    + rewrite !calls_app, Clg, Cpre, Clg'. simpl.
      eapply run_give_up; eauto.
Qed.

Lemma while_retry_spec max_retries v m :
  exists v' m' new,
    while_retry env max_retries v m = (Ok v', m')
    /\ self m' = self m
    /\ trace m' = trace m ++ new
    /\ loop_run max_retries v (calls new) v'.
Proof. apply retry_loop_spec. lia. Qed.

End LoopFacts.

(** ** From the loop to the response bundle *)

Section ChatFacts.

Context (env : Env).

Lemma retry_body_ext v k1 k2 m :
  (forall out q m', k1 (retried (with_outcome v out) q) m'
                    = k2 (retried (with_outcome v out) q) m') ->
  retry_body env v k1 m = retry_body env v k2 m.
Proof.
  intros H. unfold retry_body, mbind, M_bind, bind.
  destruct (_execute_sql_query env (sql_query v) m) as [[out|x] m1]; [|done].
  cbv zeta. destruct (error (with_outcome v out)) as [e|]; [|done].
  destruct (nonempty e); [|done].
  destruct (_log _ _ m1) as [[[]|x] m2]; [|done].
  destruct (try_except_ValueError _ _ m2) as [[[q|]|x] m3]; [apply H|done..].
Qed.

(** The model of the loop satisfies the equation of the [while] statement. *)
Lemma while_retry_unfold max_retries v m :
  while_retry env max_retries v m =
    (if count_tries v <? max_retries
     then retry_body env v (while_retry env max_retries)
     else mret v) m.
Proof.
  unfold while_retry at 1.
  destruct (Z.ltb_spec (count_tries v) max_retries) as [Hlt|Hge].
  - destruct (Z.to_nat (max_retries - count_tries v)) as [|n] eqn:En; [lia|].
    simpl. destruct (Z.ltb_spec (count_tries v) max_retries); [|lia].
    apply retry_body_ext. intros out q m'. unfold while_retry.
    simpl. by replace (Z.to_nat (max_retries - (count_tries v + 1))) with n by lia.
  - replace (Z.to_nat (max_retries - count_tries v)) with 0%nat by lia. done.
Qed.

Lemma or_stored_None attr msg m :
  or_stored None attr msg m =
    match stored attr with
    | Some q => (Ok q, m)
    | None => (Raise (ValueError msg), m)
    end.
Proof.
  unfold or_stored, stored. destruct attr as [x|]; [|done]. by destruct (nonempty x).
Qed.

Lemma no_calls_human results question :
  no_calls (generate_human_response env results question).
Proof. unfold generate_human_response. quiet. Qed.

Lemma human_response_run results m :
  match stored (natural_language_question (self m)) with
  | Some q => exists answer m', generate_human_response env results None m = (Ok answer, m')
  | None => generate_human_response env results None m = (Raise missing_question_error, m)
  end.
Proof.
  unfold generate_human_response.
  rewrite (bind_ok _ _ m (self m) m) by done.
  destruct (stored (natural_language_question (self m))) as [q|] eqn:E.
  - rewrite (bind_ok _ _ m q m) by (by rewrite or_stored_None, E).
    by eexists _, _.
  - rewrite (bind_raise _ _ m missing_question_error m); [done|].
    by rewrite or_stored_None, E.
Qed.

Lemma no_calls_conclude question max_retries human v :
  no_calls (conclude env question max_retries human v).
Proof.
  unfold conclude.
  destruct ((count_tries v =? max_retries) && truthy (error v)); [quiet|].
  destruct human; quiet; apply no_calls_human.
Qed.

Lemma conclude_exhausted question max_retries human v m :
  count_tries v = max_retries -> truthy (error v) = true ->
  fst (conclude env question max_retries human v m)
  = Raise (ValueError (exhausted_message max_retries (sql_query v)
                         (str_optional (error v)))).
Proof.
  intros Hc He. unfold conclude. rewrite He, Hc, Z.eqb_refl. simpl.
  by rewrite (bind_ok _ _ _ _ _ (log_run _ _ _)).
Qed.

Lemma conclude_format_error question max_retries human v m e :
  (count_tries v =? max_retries) && truthy (error v) = false ->
  _format_results (rows v) (column_names v) = Raise e ->
  fst (conclude env question max_retries human v m) = Raise e.
Proof.
  intros Hg Hf. unfold conclude. rewrite Hg.
  by rewrite (bind_raise _ _ m e m) by (unfold lift; by rewrite Hf).
Qed.

Lemma conclude_plain question max_retries v m fr :
  (count_tries v =? max_retries) && truthy (error v) = false ->
  _format_results (rows v) (column_names v) = Ok fr ->
  fst (conclude env question max_retries false v m)
  = Ok (plain_bundle (sql_query v) fr (elapsed env) (count_tries v)).
Proof.
  intros Hg Hf. unfold conclude. rewrite Hg.
  rewrite (bind_ok _ _ m fr m) by (unfold lift; by rewrite Hf).
  by do 4 rewrite (bind_ok _ _ _ _ _ (log_run _ _ _)).
Qed.

Lemma conclude_human question max_retries v m fr :
  (count_tries v =? max_retries) && truthy (error v) = false ->
  _format_results (rows v) (column_names v) = Ok fr ->
  match stored (natural_language_question (self m)) with
  | Some _ =>
      exists answer,
        fst (conclude env question max_retries true v m)
        = Ok (human_bundle (sql_query v) fr answer (elapsed env) (count_tries v))
  | None =>
      fst (conclude env question max_retries true v m)
      = Raise missing_question_error
  end.
Proof.
  intros Hg Hf. unfold conclude. rewrite Hg.
  rewrite (bind_ok _ _ m fr m) by (unfold lift; by rewrite Hf).
  do 4 rewrite (bind_ok _ _ _ _ _ (log_run _ _ _)).
  match goal with
  | |- context [mbind _ (generate_human_response env ?r None) ?mm] =>
    pose proof (human_response_run r mm) as Hh;
    assert (self mm = self m) as Hs by (by rewrite !logged_self)
  end.
  rewrite Hs in Hh.
  destruct (stored (natural_language_question (self m))) as [q|].
  - destruct Hh as (answer & m' & Hh). exists answer.
    by rewrite (bind_ok _ _ _ _ _ Hh).
  - by rewrite (bind_raise _ _ _ _ _ Hh).
Qed.

Lemma generate_sql_ok question m sql mg :
  generate_sql env question m = (Ok sql, mg) ->
  let raw := generated_content env question m in
  gate_accepts (_clear_llm_response raw) = true
  /\ sql = single_statement (_clear_llm_response raw)
  /\ natural_language_question (self mg) = Some question
  /\ generated_query (self mg) = Some raw.
Proof.
  rewrite generate_sql_run. cbv zeta.
  destruct (gate_accepts _) eqn:Hg; [|done].
  intros [= <- <-]. by rewrite logged_self.
Qed.

Lemma generate_sql_raises question m e mg :
  generate_sql env question m = (Raise e, mg) -> e = unsafe_query_error.
Proof.
  rewrite generate_sql_run. cbv zeta.
  destruct (gate_accepts _); [done|]. by intros [= <- _].
Qed.

Lemma events_of_app {A} (c : M A) m new :
  trace (snd (c m)) = trace m ++ new -> events_of c m = new.
Proof. intros H. unfold events_of. rewrite H. apply drop_app_length. Qed.

(** The shape of every run of [chat]. *)
Lemma chat_run question max_retries human m :
  (exists mg,
      generate_sql env question m = (Raise unsafe_query_error, mg)
      /\ chat env question max_retries human m = (Raise generation_failure, mg)
      /\ calls (events_of (chat env question max_retries human) m) = [])
  \/
  (exists generated mg v ml,
      generate_sql env question m = (Ok generated, mg)
      /\ gated generated
      /\ natural_language_question (self ml) = Some question
      /\ loop_run max_retries (loop_entry generated)
           (calls (events_of (chat env question max_retries human) m)) v
      /\ chat env question max_retries human m
         = conclude env question max_retries human v ml).
Proof.
  pose proof (no_calls_generate_sql env question m) as (gnew & Hgt & Hgc).
  destruct (generate_sql env question m) as [[generated|e] mg] eqn:Hgen.
  - right. simpl in Hgt.
    destruct (while_retry_spec env max_retries (loop_entry generated) mg)
      as (v & ml & lnew & Hloop & Hls & Hlt & Hrun).
    pose proof (no_calls_conclude question max_retries human v ml)
      as (cnew & Hct & Hcc).
    apply generate_sql_ok in Hgen as Hok. cbv zeta in Hok.
    destruct Hok as (Hacc & -> & Hq & _).
    assert (chat env question max_retries human m
            = conclude env question max_retries human v ml) as Hchat.
    { unfold chat.
      rewrite (bind_ok _ _ m _ mg) by (by apply try_ok).
      by rewrite (bind_ok _ _ _ _ _ Hloop). }
    eexists _, mg, v, ml. split_and!; [done| | | |done].
    + by apply single_statement_gated.
    + by rewrite Hls.
    + rewrite (events_of_app _ _ (gnew ++ lnew ++ cnew)).
      * rewrite !calls_app, Hgc, Hcc. simpl. by rewrite app_nil_r.
      * rewrite Hchat, Hct, Hlt, Hgt. by rewrite <- !app_assoc.
  - left. apply generate_sql_raises in Hgen as He. subst e.
    assert (chat env question max_retries human m = (Raise generation_failure, mg))
      as Hchat.
    { unfold chat. rewrite (bind_raise _ _ m generation_failure mg); [done|].
      unfold unsafe_query_error in Hgen. by rewrite (try_caught _ _ _ _ _ Hgen). }
    exists mg. split_and!; [done..|].
    rewrite (events_of_app _ _ gnew); [done|]. by rewrite Hchat.
Qed.

End ChatFacts.

(** ** The safety gate *)



(** ** The response cleaner *)

Lemma filter_sublist {A} (f : A -> bool) (l : list A) :
  sublist (List.filter f l) l.
Proof.
  induction l as [|x l IH]; [constructor|]. simpl.
  destruct (f x); by constructor.
Qed.

(** C9. The cleaner is idempotent; its result has no line that begins with
    a code fence and no occurrence of the stray marker; the lines it keeps
    are, in their order, the unfenced lines of the input once the marker is
    deleted from them; being a total function it never fails; and the fenced
    [SELECT 1] of the contract is cleaned to [SELECT 1]. *)
Theorem clear_llm_response_contract (x : string) :
  _clear_llm_response (_clear_llm_response x) = _clear_llm_response x
  /\ Forall (fun line => startswith line FENCE = false)
       (split NL (_clear_llm_response x))
  /\ contains MARKER (_clear_llm_response x) = false
  /\ (let lines := map (replace MARKER EmptyString) (split NL x) in
      let kept := List.filter (fun line => negb (startswith line FENCE)) lines in
      _clear_llm_response x = join nl kept /\ sublist kept lines)
  /\ _clear_llm_response ("```sql" +:+ nl +:+ "SELECT 1" +:+ nl +:+ "```")
     = "SELECT 1".
Proof.
  split_and!.
  - apply clear_idempotent.
  - rewrite clear_unfold. fold (kept_lines x).
    destruct (kept_lines x) as [|l ls] eqn:E.
    + by repeat constructor.
    + rewrite <- E. unfold nl.
      rewrite split_join;
        [| by rewrite E | apply kept_lines_newline_free].
      unfold kept_lines. eapply Forall_impl; [apply Forall_filter_true|].
      intros line. unfold keeps. by destruct (startswith line FENCE).
  - rewrite clear_unfold. apply contains_join, kept_lines_marker_free.
  - cbv zeta. split; [|apply filter_sublist].
    rewrite clear_unfold. by rewrite split_unmark.
  - by vm_compute.
Qed.

(** ** Session state *)

Lemma or_stored_cases arg attr msg m :
  (exists x, or_stored arg attr msg m = (Ok x, m))
  \/ or_stored arg attr msg m = (Raise (ValueError msg), m).
Proof.
  unfold or_stored.
  destruct arg as [a|]; [destruct (nonempty a)|];
    try destruct attr as [x|]; try destruct (nonempty x); eauto.
Qed.

Lemma fix_body_outcomes env e question sql m :
  exists r mb,
    fix_error_message_body env e question sql m = (r, mb)
    /\ ((exists fixed, r = Ok fixed)
        \/ r = Raise missing_query_error
        \/ r = Raise missing_repair_question_error
        \/ r = Raise unsafe_query_error).
Proof.
  unfold fix_error_message_body.
  rewrite (bind_ok _ _ m (self m) m) by done.
  destruct (or_stored_cases sql (generated_query (self m))
              "The sql_query parameter must be provided or a SQL query must be generated first." m)
    as [[sq Hsq]|Hsq].
  2: { rewrite (bind_raise _ _ _ _ _ Hsq). eexists _, _. split; [reflexivity|auto]. }
  rewrite (bind_ok _ _ _ _ _ Hsq).
  destruct (or_stored_cases question (natural_language_question (self m))
              "The question parameter must be provided or a natural language question must be generated first." m)
    as [[qn Hqn]|Hqn].
  2: { rewrite (bind_raise _ _ _ _ _ Hqn). eexists _, _. split; [reflexivity|auto]. }
  rewrite (bind_ok _ _ _ _ _ Hqn). cbv zeta.
  erewrite (bind_ok (now env)) by reflexivity.
  erewrite (bind_ok (backend_chat env _ _)) by reflexivity.
  match goal with
  | |- context [_is_safe_query ?c] => destruct (gate_accepts c) eqn:Hg
  end.
  - erewrite (bind_ok (_is_safe_query _))
      by (rewrite is_safe_query_run, Hg; reflexivity).
    rewrite (bind_ok _ _ _ _ _ (log_run _ _ _)).
    eexists _, _. split; [reflexivity|eauto].
  - erewrite (bind_raise (_is_safe_query _))
      by (rewrite is_safe_query_run, Hg; reflexivity).
    eexists _, _. split; [reflexivity|auto].
Qed.

(** C10. However [fix_error_message] ends (with a query, with one of the
    two missing-context errors, or with the unsafe-query error, and these are
    the only ways) the stored question and the stored generated query are what
    they were before the call. *)
Theorem fix_error_message_frame
    (env : Env) (error : string) (question sql_query : option string)
    (m : Machine) :
  let run := fix_error_message env error question sql_query in
  natural_language_question (self (snd (run m)))
    = natural_language_question (self m)
  /\ generated_query (self (snd (run m))) = generated_query (self m)
  /\ ((exists fixed, outcome_of run m = Ok fixed)
      \/ outcome_of run m = Raise missing_query_error
      \/ outcome_of run m = Raise missing_repair_question_error
      \/ outcome_of run m = Raise unsafe_query_error).
Proof.
  cbv zeta.
  destruct (fix_error_message_spec env error question sql_query m)
    as (r & m1 & pre & Hrun & Hself & _).
  rewrite Hrun. simpl. rewrite Hself. split_and!; [done..|].
  unfold outcome_of. rewrite Hrun. simpl.
  destruct (fix_body_outcomes env error question sql_query m)
    as (r' & mb & Hbody & Hcases).
  unfold fix_error_message in Hrun. rewrite Hbody in Hrun.
  by injection Hrun as <- _.
Qed.

(** The cleaned and gated string is not what [generate_sql] stores: on the
    completion [SELECT 1;] it returns [SELECT 1] and stores [SELECT 1;]. *)
Lemma generate_sql_stores_raw_text :
  let run := generate_sql env_terminated "how many?" in
  outcome_of run orders_instance = Ok "SELECT 1"
  /\ generated_query (self (snd (run orders_instance))) = Some "SELECT 1;"
  /\ generated_query (self (snd (run orders_instance))) <> Some "SELECT 1".
Proof. by vm_compute. Qed.

(** C7, as the code has it. After a successful [generate_sql] the stored
    query is the raw completion of the backend, the returned string is that
    text cleaned and gated, and the stored question is the argument. *)
Theorem generate_sql_records
    (env : Env) (question : string) (m : Machine) (sql : string) (m' : Machine) :
  generate_sql env question m = (Ok sql, m') ->
  exists raw,
    generated_query (self m') = Some raw
    /\ raw = ollama_chat env (count_events is_backend (trace m))
               (model (self m))
               (generate_system_prompt (set_natural_language_question question (self m)))
               (generate_user_prompt (set_natural_language_question question (self m))
                  (strftime_now env (count_events is_backend (trace m))) question)
    /\ gate_accepts (_clear_llm_response raw) = true
    /\ sql = strip (before_first SEMI (_clear_llm_response raw))
    /\ natural_language_question (self m') = Some question.
Proof.
  intros H. apply generate_sql_ok in H. cbv zeta in H.
  destruct H as (Hacc & -> & Hq & Hraw).
  exists (generated_content env question m). by split_and!.
Qed.

Lemma generate_sql_records_witness :
  exists raw,
    generated_query
      (self (snd (generate_sql env_terminated "how many?" orders_instance)))
    = Some raw
    /\ raw = "SELECT 1;"
    /\ natural_language_question
         (self (snd (generate_sql env_terminated "how many?" orders_instance)))
       = Some "how many?".
Proof.
  destruct (generate_sql_records env_terminated "how many?" orders_instance
              "SELECT 1"
              (snd (generate_sql env_terminated "how many?" orders_instance)))
    as (raw & H1 & H2 & _ & _ & H5).
  - by vm_compute.
  - exists raw. split_and!; [exact H1 | | exact H5].
    rewrite H2. by vm_compute.
Defined.

(** ** Properties of the retry orchestrator *)

Section Orchestration.

Context (env : Env).



Lemma calls_in_exec tr q out :
  CExec q out ∈ calls tr -> EvExecute q out ∈ tr.
Proof.
  induction tr as [|ev tr IH]; [by intros ?%elem_of_nil|].
  destruct ev; simpl; intros H; try (apply elem_of_cons; right; by apply IH).
  - apply elem_of_cons in H as [[= -> ->]|H]; apply elem_of_cons; auto.
  - apply elem_of_cons in H as [[=]|H]. apply elem_of_cons; auto.
Qed.

Lemma count_exec_events tr :
  count_events is_execute tr = count_exec (calls tr).
Proof.
  unfold count_events. induction tr as [|ev tr IH]; [done|].
  destruct ev; simpl; by rewrite ?IH.
Qed.

Lemma count_exec_app cs1 cs2 :
  count_exec (cs1 ++ cs2) = (count_exec cs1 + count_exec cs2)%nat.
Proof. induction cs1 as [|[] cs1 IH]; simpl; by rewrite ?IH. Qed.

Lemma count_repair_app cs1 cs2 :
  count_repair (cs1 ++ cs2) = (count_repair cs1 + count_repair cs2)%nat.
Proof. induction cs1 as [|[] cs1 IH]; simpl; by rewrite ?IH. Qed.


End Orchestration.


(** *** Exhausting the budget *)

Lemma prefix_app s t : String.prefix s (s +:+ t) = true.
Proof.
  induction s as [|c s IH]; [apply prefix_nil|].
  rewrite app_cons, prefix_cons. by destruct (ascii_dec c c).
Qed.

Lemma contains_prefix sub s : String.prefix sub s = true -> contains sub s = true.
Proof.
  intros H. destruct s; [by rewrite contains_nil|]. by rewrite contains_cons, H.
Qed.

Lemma contains_app_r sub a b : contains sub b = true -> contains sub (a +:+ b) = true.
Proof.
  intros H. induction a as [|c a IH]; [done|].
  rewrite app_cons, contains_cons, IH. apply orb_true_r.
Qed.

Lemma contains_app_l sub a b : contains sub a = true -> contains sub (a +:+ b) = true.
Proof.
  revert sub. induction a as [|c a IH]; intros sub H.
  - destruct sub; [|done]. apply contains_prefix, prefix_nil.
  - rewrite contains_cons in H. rewrite app_cons, contains_cons.
    apply orb_true_iff in H as [H|H].
    + apply orb_true_iff. left. clear IH. revert sub H.
      change (String c (a +:+ b)) with (String c a +:+ b).
      generalize (String c a). clear. intros s sub. revert s.
      induction sub as [|d sub IH]; intros s H; [apply prefix_nil|].
      destruct s as [|e s]; [done|].
      rewrite prefix_cons in H. rewrite app_cons, prefix_cons.
      destruct (ascii_dec d e); [by apply IH | done].
    + rewrite IH by done. apply orb_true_r.
Qed.

Lemma contains_between sub a b : contains sub (a +:+ sub +:+ b) = true.
Proof. apply contains_app_r, contains_prefix, prefix_app. Qed.

(** The message of the exhausted-retries error embeds its three arguments. *)
Lemma exhausted_message_embeds max_retries q e :
  contains (pretty max_retries) (exhausted_message max_retries q e) = true
  /\ contains q (exhausted_message max_retries q e) = true
  /\ contains e (exhausted_message max_retries q e) = true.
Proof.
  unfold exhausted_message. split_and!.
  - apply contains_between.
  - do 5 apply contains_app_r. apply contains_between.
  - do 11 apply contains_app_r.
    apply contains_prefix. rewrite <- (string_app_nil_r e) at 2. apply prefix_app.
Qed.

(** When every attempt fails and every repair answers, the loop runs the
    budget out: it ends on a repair whose query is never executed. *)
Lemma loop_run_all_fail max_retries v cs v' :
  loop_run max_retries v cs v' ->
  (forall q out, CExec q out ∈ cs -> truthy (out_error out) = true) ->
  (forall e r, CRepair e r ∈ cs -> exists fixed, r = Ok fixed) ->
  count_tries v < max_retries ->
  count_tries v' = max_retries
  /\ count_exec cs = Z.to_nat (max_retries - count_tries v)
  /\ exists pre q out e fixed,
       cs = pre ++ [CExec q out; CRepair e (Ok fixed)]
       /\ out_error out = Some e /\ nonempty e = true
       /\ error v' = Some e /\ sql_query v' = fixed.
Proof.
  induction 1 as [v Hge|v out _ _ Hf|v out e msg _ _ _ _
                  |v out e fixed cs v' Hlt Hwf He Hne Hg Hrun IH];
    intros Hexec Hrep Hcount.
  - done.
  - specialize (Hexec (sql_query v) out). rewrite Hf in Hexec.
    discriminate Hexec. apply elem_of_cons. by left.
  - destruct (Hrep e (Raise (ValueError msg))) as [? [=]].
    apply elem_of_cons. right. apply elem_of_cons. by left.
  - destruct (Z_lt_dec (count_tries v + 1) max_retries) as [Hmore|Hlast].
    + destruct IH as (Hc & Hn & pre & q' & out' & e' & fixed' & -> & H1 & H2 & H3 & H4).
      * intros q o Hin. eapply Hexec. do 2 (apply elem_of_cons; right). exact Hin.
      * intros e0 r Hin. eapply Hrep. do 2 (apply elem_of_cons; right). exact Hin.
      * done.
      * split_and!; [done| |].
        -- simpl. simpl in Hn. rewrite Hn. lia.
        -- exists (CExec (sql_query v) out :: CRepair e (Ok fixed) :: pre),
             q', out', e', fixed'. by split_and!.
    + inversion Hrun as [v0 Hge| | |]; subst; try (simpl in *; lia).
      simpl. split_and!; [lia|lia|].
      exists [], (sql_query v), out, e, fixed. by split_and!.
Qed.

Lemma exec_outcomes_in cs q out : CExec q out ∈ cs -> out ∈ exec_outcomes cs.
Proof.
  induction cs as [|c cs IH]; [by intros ?%elem_of_nil|].
  intros [<-|H]%elem_of_cons; simpl.
  - apply elem_of_cons. by left.
  - specialize (IH H). destruct c; [apply elem_of_cons; by right | done].
Qed.

Lemma repair_results_in cs e r : CRepair e r ∈ cs -> r ∈ repair_results cs.
Proof.
  induction cs as [|c cs IH]; [by intros ?%elem_of_nil|].
  intros [<-|H]%elem_of_cons; simpl.
  - apply elem_of_cons. by left.
  - specialize (IH H). destruct c; [done | apply elem_of_cons; by right].
Qed.

(** With no budget nothing is executed and nothing is raised; with a budget
    of one the only statement tried, [SELECT a], is absent from the message,
    which shows the repaired [SELECT b] instead; and an exception with an
    empty text is not taken for an error at all. *)
Lemma chat_exhaustion_counterexample :
  (let run := chat env_failing "total of order 5?" 0 false in
   executed (events_of run orders_instance) = []
   /\ is_ok (outcome_of run orders_instance) = true)
  /\ (let run := chat env_failing "total of order 5?" 1 false in
      executed (events_of run orders_instance) = ["SELECT a"]
      /\ repair_results (calls (events_of run orders_instance)) = [Ok "SELECT b"]
      /\ exists msg,
           outcome_of run orders_instance = Raise (ValueError msg)
           /\ contains "SELECT a" msg = false
           /\ contains "SELECT b" msg = true)
  /\ (let run := chat env_silent_failure "total of order 5?" 1 false in
      map out_error (exec_outcomes (calls (events_of run orders_instance)))
        = [Some EmptyString]
      /\ is_ok (outcome_of run orders_instance) = true).
Proof.
  cbv zeta. split_and!; try (by vm_compute).
  eexists. split_and!; by vm_compute.
Qed.

(** C1, as the code has it. With a budget of at least one, a generation that
    succeeds, every execution attempt returning a non-empty error text and
    every repair returning a query, [chat] calls the execution adapter exactly
    [max_retries] times, the last call of the run being the repair that
    answers the last failed attempt, and raises the exhausted-retries error;
    the message embeds the budget, the query of that last repair (the last
    one generated, which is not executed) and the last error text. *)
Theorem chat_exhausts_budget
    (env : Env) (question : string) (max_retries : Z) (human_response : bool)
    (m : Machine) :
  let run := chat env question max_retries human_response in
  1 <= max_retries ->
  is_ok (outcome_of (generate_sql env question) m) = true ->
  Forall (fun out => truthy (out_error out) = true)
    (exec_outcomes (calls (events_of run m))) ->
  Forall (fun r => is_ok r = true) (repair_results (calls (events_of run m))) ->
  count_events is_execute (events_of run m) = Z.to_nat max_retries
  /\ exists pre q out e fixed,
       calls (events_of run m) = pre ++ [CExec q out; CRepair e (Ok fixed)]
       /\ out_error out = Some e
       /\ outcome_of run m
          = Raise (ValueError (exhausted_message max_retries fixed e))
       /\ contains (pretty max_retries) (exhausted_message max_retries fixed e) = true
       /\ contains fixed (exhausted_message max_retries fixed e) = true
       /\ contains e (exhausted_message max_retries fixed e) = true.
Proof.
  cbv zeta. intros Hmax Hgen Hexec Hrep.
  destruct (chat_run env question max_retries human_response m)
    as [(mg & Hg & _)|(g & mg & v & ml & _ & _ & _ & Hrun & Hchat)].
  { unfold outcome_of in Hgen. by rewrite Hg in Hgen. }
  rewrite count_exec_events.
  destruct (loop_run_all_fail _ _ _ _ Hrun)
    as (Hc & Hn & pre & q & out & e & fixed & Hcs & He & Hne & Hev & Hq).
  - intros q out Hin%exec_outcomes_in.
    by eapply (proj1 (Forall_forall _ _) Hexec).
  - intros e [fixed|x] Hin%repair_results_in; [by eexists|].
    by apply (proj1 (Forall_forall _ _) Hrep) in Hin.
  - simpl. lia.
  - split; [rewrite Hn; simpl; f_equal; lia|].
    exists pre, q, out, e, fixed.
    split; [done|]. split; [done|]. split; [|apply exhausted_message_embeds].
    unfold outcome_of. rewrite Hchat, conclude_exhausted.
    + by rewrite Hev, Hq.
    + done.
    + by rewrite Hev.
Qed.

Lemma chat_exhausts_budget_witness :
  count_events is_execute
    (events_of (chat env_failing "total of order 5?" 2 false) orders_instance)
  = 2%nat
  /\ exists fixed e,
       outcome_of (chat env_failing "total of order 5?" 2 false) orders_instance
       = Raise (ValueError (exhausted_message 2 fixed e)).
Proof.
  destruct (chat_exhausts_budget env_failing "total of order 5?" 2 false
              orders_instance)
    as (Hn & pre & q & out & e & fixed & _ & _ & Hout & _).
  - lia.
  - by vm_compute.
  - vm_compute. by repeat constructor.
  - vm_compute. by repeat constructor.
  - split; [exact Hn|]. by exists fixed, e.
Defined.

(** *** The first success *)

Lemma row_data_fits column_names (r : row) indices acc :
  Forall (fun i => (i < length column_names)%nat) indices ->
  (length column_names <= length r)%nat ->
  exists d, row_data column_names r indices acc = Ok d.
Proof.
  revert acc. induction indices as [|i rest IH]; intros acc Hi Hr; [by eexists|].
  inversion Hi as [|? ? Hlt Hrest]; subst. simpl.
  destruct (lookup_lt_is_Some_2 column_names i Hlt) as [name ->].
  destruct (r !! i) as [cell|] eqn:E; [by apply IH|].
  apply lookup_ge_None in E. lia.
Qed.

Lemma format_rows_fits column_names (rs : list row) acc :
  Forall (fun r : row => (length column_names <= length r)%nat) rs ->
  exists l, format_rows column_names rs acc = Ok l.
Proof.
  revert acc. induction rs as [|r rest IH]; intros acc H; [by eexists|].
  inversion H as [|? ? Hr Hrest]; subst. simpl.
  destruct (row_data_fits column_names r (seq 0 (length column_names)) [])
    as [d ->]; [|done|by apply IH].
  apply Forall_forall. intros i Hi%elem_of_seq. lia.
Qed.

(** Rows that fit their columns are formatted without an exception. *)
Lemma format_results_fits out :
  rows_fit out ->
  exists fr, _format_results (out_rows out) (out_columns out) = Ok fr.
Proof.
  intros Hfit. unfold _format_results.
  destruct (negb (list_truthy (out_rows out))
            || negb (list_truthy (out_columns out))) eqn:E; [by eexists|].
  destruct (out_rows out) as [rs|] eqn:Hr; [|done].
  destruct (out_columns out) as [cs|] eqn:Hc; [|by destruct rs].
  simpl. destruct (format_rows_fits cs rs []) as [l ->]; [by apply Hfit|].
  by eexists.
Qed.

Lemma bundle_retries_plain q fr t n :
  plain_bundle q fr t n !! "retries" = Some (BInt n).
Proof. unfold plain_bundle. by simplify_map_eq. Qed.

Lemma bundle_retries_human q fr a t n :
  human_bundle q fr a t n !! "retries" = Some (BInt n).
Proof. unfold human_bundle. by simplify_map_eq. Qed.

(** An attempt that returns no error is the last call of the loop; before
    it every attempt failed and was repaired. *)
Lemma loop_run_success max_retries v cs v' :
  loop_run max_retries v cs v' ->
  forall (i : nat) out,
    exec_outcomes cs !! i = Some out ->
    truthy (out_error out) = false ->
    count_tries v' = count_tries v + Z.of_nat i
    /\ count_tries v' < max_retries
    /\ rows v' = out_rows out /\ column_names v' = out_columns out
    /\ error v' = out_error out
    /\ Forall (fun o => truthy (out_error o) = true) (take i (exec_outcomes cs))
    /\ exists pre q,
         cs = pre ++ [CExec q out]
         /\ count_exec pre = i /\ count_repair pre = i
         /\ Forall (fun r => is_ok r = true) (repair_results pre).
Proof.
  induction 1 as [v Hge|v out0 Hlt _ Hf|v out0 e msg Hlt _ He Hne
                  |v out0 e fixed cs v' Hlt Hwf He Hne Hg Hrun IH];
    intros i out Hi Hout.
  - done.
  - destruct i as [|i]; [|done]. injection Hi as ->.
    simpl. split_and!; [lia|done..|].
    exists [], (sql_query v). by split_and!.
  - destruct i as [|i]; [|done]. injection Hi as ->.
    rewrite He in Hout. simpl in Hout. congruence.
  - destruct i as [|i].
    { injection Hi as ->. rewrite He in Hout. simpl in Hout. congruence. }
    destruct (IH i out Hi Hout)
      as (Hc & Hm & Hr & Hcol & Herr & Hpre & pre & q & -> & Hn1 & Hn2 & Hok).
    simpl in Hc. split_and!; [lia|done..| |].
    + simpl. constructor; [by rewrite He|done].
    + exists (CExec (sql_query v) out0 :: CRepair e (Ok fixed) :: pre), q.
      simpl. rewrite Hn1, Hn2. split_and!; try done. by constructor.
Qed.

(** C3. If the [k]-th call to the execution adapter returns no error, then
    it is the first to do so and [k] is within the budget; before it there
    are exactly [k - 1] attempts and exactly [k - 1] repair calls, all of
    which returned a query, and it is the last call of the run; a returned
    bundle reports [k - 1] retries, and a bundle is returned whenever the rows
    fit their columns and the human answer, if requested, has a question to
    answer. *)
Theorem chat_first_success
    (env : Env) (question : string) (max_retries : Z) (human_response : bool)
    (m : Machine) (k : nat) (out : exec_outcome) :
  let run := chat env question max_retries human_response in
  (1 <= k)%nat ->
  exec_outcomes (calls (events_of run m)) !! (k - 1)%nat = Some out ->
  truthy (out_error out) = false ->
  Forall (fun o => truthy (out_error o) = true)
    (take (k - 1) (exec_outcomes (calls (events_of run m))))
  /\ Z.of_nat k <= max_retries
  /\ (exists pre q,
        calls (events_of run m) = pre ++ [CExec q out]
        /\ count_exec pre = (k - 1)%nat
        /\ count_repair pre = (k - 1)%nat
        /\ Forall (fun r => is_ok r = true) (repair_results pre))
  /\ (forall b, outcome_of run m = Ok b ->
        b !! "retries" = Some (BInt (Z.of_nat (k - 1))))
  /\ (rows_fit out ->
      human_response = false \/ nonempty question = true ->
      exists b, outcome_of run m = Ok b).
Proof.
  cbv zeta. intros Hk Hi Hout.
  destruct (chat_run env question max_retries human_response m)
    as [(mg & _ & _ & Hc)|(g & mg & v & ml & _ & _ & Hq & Hrun & Hchat)].
  { by rewrite Hc in Hi. }
  destruct (loop_run_success _ _ _ _ Hrun _ _ Hi Hout)
    as (Hc & Hm & Hr & Hcol & Herr & Hpre & Hcalls).
  simpl in Hc.
  assert ((count_tries v =? max_retries) && truthy (error v) = false) as Hguard.
  { destruct (Z.eqb_spec (count_tries v) max_retries); [lia|done]. }
  assert (stored (natural_language_question (self ml))
          = if nonempty question then Some question else None) as Hst.
  { by rewrite Hq. }
  unfold outcome_of. rewrite Hchat.
  split_and!; [done|lia|done| |].
  - intros b Hb.
    destruct (_format_results (rows v) (column_names v)) as [fr|x] eqn:Hf.
    2: { by rewrite (conclude_format_error _ _ _ _ _ _ _ Hguard Hf) in Hb. }
    destruct human_response.
    + pose proof (conclude_human env question max_retries v ml fr Hguard Hf) as H.
      destruct (stored (natural_language_question (self ml))).
      * destruct H as [answer H]. rewrite H in Hb. injection Hb as <-.
        rewrite bundle_retries_human. do 2 f_equal. lia.
      * by rewrite H in Hb.
    + rewrite (conclude_plain env question max_retries v ml fr Hguard Hf) in Hb.
      injection Hb as <-. rewrite bundle_retries_plain. do 2 f_equal. lia.
  - intros Hfit Hhuman.
    destruct (format_results_fits out Hfit) as [fr Hf].
    rewrite <- Hr, <- Hcol in Hf.
    destruct human_response.
    + destruct Hhuman as [|Hne]; [done|].
      pose proof (conclude_human env question max_retries v ml fr Hguard Hf) as H.
      rewrite Hst, Hne in H. destruct H as [answer H]. by eexists.
    + rewrite (conclude_plain env question max_retries v ml fr Hguard Hf).
      by eexists.
Qed.

Lemma chat_first_success_witness :
  exists b,
    outcome_of (chat env_repaired "total of order 5?" 3 false) orders_instance
    = Ok b
    /\ b !! "retries" = Some (BInt 1)
    /\ count_repair
         (calls (events_of (chat env_repaired "total of order 5?" 3 false)
                   orders_instance)) = 1%nat.
Proof.
  destruct (chat_first_success env_repaired "total of order 5?" 3 false
              orders_instance 2 one_total)
    as (_ & _ & (pre & q & Hcalls & _ & Hrep & _) & Hretries & Hreturns).
  - lia.
  - by vm_compute.
  - reflexivity.
  - destruct Hreturns as [b Hb].
    + intros rs cs [= <-] [= <-]. repeat constructor.
    + by left.
    + exists b. split_and!; [exact Hb | exact (Hretries b Hb) |].
      rewrite Hcalls, count_repair_app, Hrep. reflexivity.
Defined.

(** *** Giving up after a failed repair *)






(** *** What the repair prompt embeds *)

(** C6, evaluated where the code departs from it. The first query
    [SELECT a] fails and is repaired to [SELECT b], which fails in turn; the
    prompt of the second repair carries the error of the second attempt, but
    under [SQL Query:] it carries the first completion [SELECT a] and not the
    failing [SELECT b]. *)
Theorem second_repair_prompt_embeds_first_query :
  let run := chat env_failing "total of order 5?" 2 false in
  let s := self (snd (run orders_instance)) in
  executed (events_of run orders_instance) = ["SELECT a"; "SELECT b"]
  /\ map out_error (exec_outcomes (calls (events_of run orders_instance)))
     = [Some "no such column: a"; Some "no such column: b"]
  /\ user_prompts (events_of run orders_instance) !! 2%nat
     = Some (repair_user_prompt s "2025-01-01 12:00:00" "total of order 5?"
               "no such column: b" "SELECT a")
  /\ (contains "no such column: b"
        <$> user_prompts (events_of run orders_instance) !! 2%nat) = Some true
  /\ (contains "SELECT a"
        <$> user_prompts (events_of run orders_instance) !! 2%nat) = Some true
  /\ (contains "SELECT b"
        <$> user_prompts (events_of run orders_instance) !! 2%nat) = Some false.
Proof. cbv zeta. split_and!; by vm_compute. Qed.

(** *** The response bundle *)

(** The end-to-end scenario without a human answer: the bundle has the
    query without its terminator, the one record under [results], no retries. *)
Example chat_orders_bundle :
  outcome_of (chat env_orders "what is the total of order 5?" 3 false)
    orders_instance
  = Ok (plain_bundle "SELECT total FROM orders WHERE id=5"
          (FRecords [[("total", PFloat (42 # 1))]]) (5 # 100) 0).
Proof. by vm_compute. Qed.

(** C8, evaluated where the code departs from it. In the same scenario with
    a human answer requested, the returned dictionary has the answer, the
    query, the time and the retries, but no key [results]: the formatted
    results are under [result]. *)
Theorem human_bundle_lacks_results_key :
  let run := chat env_orders "what is the total of order 5?" 3 true in
  exists b,
    outcome_of run orders_instance = Ok b
    /\ b !! "results" = None
    /\ b !! "result" = Some (BResults (FRecords [[("total", PFloat (42 # 1))]]))
    /\ b !! "answer" = Some (BStr "The total of order 5 is 42.")
    /\ b !! "query" = Some (BStr "SELECT total FROM orders WHERE id=5")
    /\ b !! "execution_time" = Some (BFloat (5 # 100))
    /\ b !! "retries" = Some (BInt 0).
Proof.
  cbv zeta.
  exists (human_bundle "SELECT total FROM orders WHERE id=5"
            (FRecords [[("total", PFloat (42 # 1))]])
            "The total of order 5 is 42." (5 # 100) 0).
  split; [by vm_compute|]. unfold human_bundle. split_and!; by simplify_map_eq.
Qed.

(** ** More on the gate, the cleaner and the formatter *)

Lemma before_first_absent c s : has_char c s = false -> before_first c s = s.
Proof.
  induction s as [|d r IH]; [done|]. simpl.
  intros [Hd Hr]%orb_false_elim. by rewrite Hd, IH.
Qed.

(** What the gate returns passes the gate again, unchanged. *)
Theorem is_safe_query_fixed_point (S : string) (m : Machine) (q : string) (m' : Machine) :
  _is_safe_query S m = (Ok q, m') ->
  _is_safe_query q m' = (Ok q, m').
Proof.
  intros (Hacc & -> & ->)%is_safe_query_ok.
  destruct (single_statement_gated S Hacc) as [Hsel Hsemi].
  assert (single_statement (single_statement S) = single_statement S) as Hfix.
  { unfold single_statement at 1. rewrite before_first_absent by done.
    unfold single_statement. apply strip_idemp. }
  rewrite is_safe_query_run. unfold gate_accepts. rewrite Hfix.
  unfold gate_accepts in Hacc. by rewrite Hacc.
Qed.

Lemma is_safe_query_fixed_point_witness :
  _is_safe_query "select 1" orders_instance = (Ok "select 1", orders_instance).
Proof.
  apply (is_safe_query_fixed_point "  select 1 ; drop table t" orders_instance).
  reflexivity.
Defined.

Lemma kept_lines_unfenced x :
  Forall (fun l => startswith l FENCE = false) (kept_lines x).
Proof.
  unfold kept_lines. eapply Forall_impl; [apply Forall_filter_true|].
  intros line. unfold keeps. by destruct (startswith line FENCE).
Qed.

(** The cleaner leaves a text alone exactly when the text has no stray
    marker and no line that begins with a code fence. *)
Theorem clear_llm_response_identity (x : string) :
  _clear_llm_response x = x
  <-> contains MARKER x = false
      /\ Forall (fun line => startswith line FENCE = false) (split NL x).
Proof.
  split.
  - intros H. split.
    + rewrite <- H, clear_unfold. apply contains_join, kept_lines_marker_free.
    + rewrite <- H, clear_unfold. fold (kept_lines x).
      destruct (kept_lines x) as [|l ls] eqn:E; [by repeat constructor|].
      rewrite <- E. unfold nl.
      rewrite split_join; [apply kept_lines_unfenced | by rewrite E
                          | apply kept_lines_newline_free].
  - intros [Hm Hf]. rewrite clear_unfold, unmark_fixed by done.
    rewrite filter_fixed.
    + apply join_split.
    + eapply Forall_impl; [exact Hf|]. intros l Hl. unfold keeps. by rewrite Hl.
Qed.

Lemma clear_llm_response_identity_witness :
  _clear_llm_response ("SELECT a" +:+ nl +:+ "FROM t WHERE a > 1")
  = "SELECT a" +:+ nl +:+ "FROM t WHERE a > 1".
Proof.
  apply (proj2 (clear_llm_response_identity _)).
  split; [reflexivity | by repeat constructor].
Defined.

(** *** The result formatter *)

Lemma list_truthy_cons {A} (o : option (list A)) :
  list_truthy o = true -> exists x l, o = Some (x :: l).
Proof. destruct o as [[|x l]|]; [done| |done]. by exists x, l. Qed.

(** The sentinel is returned exactly when the rows or the column names are
    absent or empty. *)
Theorem format_results_sentinel
    (rows : option (list row)) (column_names : option (list string)) :
  _format_results rows column_names = Ok no_results
  <-> list_truthy rows = false \/ list_truthy column_names = false.
Proof.
  unfold _format_results, no_results.
  destruct (list_truthy rows), (list_truthy column_names); simpl;
    try (split; [auto|done]).
  split; [|by intros [|]].
  by destruct (format_rows _ _ _).
Qed.

Lemma format_results_sentinel_witness :
  _format_results (Some []) (Some ["id"]) = Ok no_results.
Proof. apply (proj2 (format_results_sentinel _ _)). by left. Defined.

Lemma dict_set_fresh k v (d : record) :
  k ∉ d.*1 -> dict_set k v d = d ++ [(k, v)].
Proof.
  induction d as [|[k' v'] d IH]; [done|]. simpl.
  intros Hk. apply not_elem_of_cons in Hk as [Hne Hk].
  destruct (String.eqb_spec k' k) as [->|_]; [done|]. by rewrite IH.
Qed.

(** With distinct column names a fitting row becomes the list of its
    (column, cell) pairs, in column order. *)
Lemma row_data_distinct column_names (r : row) (k i : nat) :
  NoDup column_names ->
  row_fits column_names r ->
  (i + k = length column_names)%nat ->
  row_data column_names r (seq i k) (zip (take i column_names) (take i r))
  = Ok (zip column_names (take (length column_names) r)).
Proof.
  unfold row_fits. intros Hnd Hfit. revert i.
  induction k as [|k IH]; intros i Hik.
  - simpl. rewrite Nat.add_0_r in Hik. subst i.
    by rewrite firstn_all.
  - simpl.
    destruct (lookup_lt_is_Some_2 column_names i) as [name Hname]; [lia|].
    rewrite Hname.
    destruct (r !! i) as [cell|] eqn:Hcell.
    2: { apply lookup_ge_None in Hcell. lia. }
    rewrite dict_set_fresh.
    + rewrite <- (IH (S i)) by lia. f_equal.
      rewrite (take_S_r column_names i name) by done.
      rewrite (take_S_r r i cell) by done.
      rewrite zip_with_app; [done|]. rewrite !length_take. lia.
    + rewrite fst_zip by (rewrite !length_take; lia).
      intros Hin. apply list_elem_of_lookup in Hin as [j Hj].
      apply lookup_take_Some in Hj as [Hj Hlt].
      pose proof (NoDup_lookup _ _ _ _ Hnd Hj Hname). lia.
Qed.

Lemma format_rows_distinct column_names (rs : list row) acc :
  NoDup column_names ->
  Forall (row_fits column_names) rs ->
  format_rows column_names rs acc
  = Ok (acc ++ map (fun r => zip column_names (take (length column_names) r)) rs).
Proof.
  intros Hnd. revert acc. induction rs as [|r rest IH]; intros acc Hfit.
  - simpl. by rewrite app_nil_r.
  - inversion Hfit as [|? ? Hr Hrest]; subst. simpl.
    pose proof (row_data_distinct column_names r (length column_names) 0
                  Hnd Hr eq_refl) as Hrow.
    change (zip (take 0 column_names) (take 0 r)) with (@nil (string * pyval))
      in Hrow.
    rewrite Hrow, IH by done. by rewrite <- app_assoc.
Qed.

(** With at least one row, at least one column, distinct column names and
    rows that fit, the formatter returns one record per row, in row order,
    pairing each column name with the cell at the same position. *)
Theorem format_results_records
    (rs : list row) (column_names : list string) :
  rs <> [] -> column_names <> [] ->
  NoDup column_names ->
  Forall (row_fits column_names) rs ->
  _format_results (Some rs) (Some column_names)
  = Ok (FRecords
          (map (fun r => zip column_names (take (length column_names) r)) rs)).
Proof.
  intros Hr Hc Hnd Hfit. unfold _format_results.
  destruct rs as [|r rest]; [done|]. destruct column_names as [|c cs]; [done|].
  cbn [list_truthy negb orb from_option id].
  by rewrite format_rows_distinct.
Qed.

Lemma format_results_records_witness :
  _format_results (Some [[PInt 1; PStr "a"]]) (Some ["id"; "name"])
  = Ok (FRecords [[("id", PInt 1); ("name", PStr "a")]]).
Proof.
  apply (format_results_records [[PInt 1; PStr "a"]] ["id"; "name"]).
  - done.
  - done.
  - apply (bool_decide_unpack _). by vm_compute.
  - repeat constructor.
Defined.

Lemma row_data_raises column_names (r : row) indices acc e :
  row_data column_names r indices acc = Raise e -> e = IndexError.
Proof.
  revert acc. induction indices as [|i rest IH]; intros acc; [done|]. simpl.
  destruct (column_names !! i); [|by intros [= <-]].
  destruct (r !! i); [apply IH | by intros [= <-]].
Qed.

Lemma row_data_short column_names (r : row) indices acc i :
  i ∈ indices -> (length r <= i)%nat ->
  row_data column_names r indices acc = Raise IndexError.
Proof.
  revert acc. induction indices as [|j rest IH]; intros acc Hin Hi.
  { by apply elem_of_nil in Hin. }
  simpl. destruct (column_names !! j); [|done].
  destruct (r !! j) as [cell|] eqn:Hj; [|done].
  apply elem_of_cons in Hin as [->|Hin]; [|by apply IH].
  apply lookup_lt_Some in Hj. lia.
Qed.

Lemma format_rows_raises column_names (rs : list row) acc e :
  format_rows column_names rs acc = Raise e -> e = IndexError.
Proof.
  revert acc. induction rs as [|r rest IH]; intros acc; [done|]. simpl.
  destruct (row_data _ _ _ _) as [d|x] eqn:E; [apply IH|].
  intros [= <-]. by eapply row_data_raises.
Qed.

Lemma format_rows_short column_names (rs : list row) acc :
  Exists (fun r : row => (length r < length column_names)%nat) rs ->
  format_rows column_names rs acc = Raise IndexError.
Proof.
  intros Hex. revert acc. induction Hex as [r rest Hr|r rest _ IH]; intros acc.
  - simpl. rewrite (row_data_short _ _ _ _ (length r)); [done| |lia].
    apply elem_of_seq. lia.
  - simpl. destruct (row_data _ _ _ _) as [d|x] eqn:E; [apply IH|].
    f_equal. by eapply row_data_raises.
Qed.

Lemma format_rows_length column_names (rs : list row) acc l :
  format_rows column_names rs acc = Ok l ->
  length l = (length acc + length rs)%nat.
Proof.
  revert acc. induction rs as [|r rest IH]; intros acc.
  - simpl. intros [= <-]. lia.
  - simpl. destruct (row_data _ _ _ _) as [d|x]; [|done].
    intros H%IH. rewrite H, length_app. simpl. lia.
Qed.

(** On at least one row and one column the formatter either returns one
    record per row, which happens exactly when every row fits the columns, or
    raises [IndexError]; it neither returns the sentinel nor raises anything
    else. *)
Theorem format_results_fit_or_raise
    (rs : list row) (column_names : list string) :
  rs <> [] -> column_names <> [] ->
  (Forall (row_fits column_names) rs ->
     exists l, _format_results (Some rs) (Some column_names) = Ok (FRecords l)
               /\ length l = length rs)
  /\ (~ Forall (row_fits column_names) rs ->
       _format_results (Some rs) (Some column_names) = Raise IndexError).
Proof.
  intros Hr Hc. unfold _format_results.
  destruct rs as [|r rest]; [done|]. destruct column_names as [|c cs]; [done|].
  cbn [list_truthy negb orb from_option id]. split.
  - intros Hfit. destruct (format_rows_fits (c :: cs) (r :: rest) []) as [l Hl].
    { exact Hfit. }
    rewrite Hl. exists l. split; [done|].
    by apply format_rows_length in Hl.
  - intros Hnot. rewrite format_rows_short; [done|].
    apply not_Forall_Exists in Hnot; [|intros x; unfold row_fits; apply _].
    eapply Exists_impl; [exact Hnot|]. unfold row_fits. simpl. intros x Hx. lia.
Qed.

Lemma format_results_fit_or_raise_witness :
  _format_results (Some [[PInt 1; PStr "a"]; [PInt 2]]) (Some ["id"; "name"])
  = Raise IndexError.
Proof.
  apply (proj2 (format_results_fit_or_raise
                  [[PInt 1; PStr "a"]; [PInt 2]] ["id"; "name"]
                  ltac:(done) ltac:(done))).
  intros H. inversion H as [|? ? _ H2]; subst.
  inversion H2 as [|? ? H3 _]; subst. unfold row_fits in H3. simpl in H3. lia.
Defined.

Lemma dict_set_keys k v (d : record) :
  (dict_set k v d).*1 = if bool_decide (k ∈ d.*1) then d.*1 else d.*1 ++ [k].
Proof.
  induction d as [|[k' v'] d IH]; [done|]. cbn [dict_set].
  destruct (String.eqb_spec k' k) as [->|Hne]; rewrite !fmap_cons; cbn [fst].
  - rewrite bool_decide_eq_true_2; [done|]. apply elem_of_cons. by left.
  - rewrite IH. destruct (bool_decide_reflect (k ∈ d.*1)) as [Hin|Hnin].
    + rewrite bool_decide_eq_true_2; [done|]. apply elem_of_cons. by right.
    + rewrite bool_decide_eq_false_2; [done|].
      intros [?|?]%elem_of_cons; congruence.
Qed.

Lemma dict_set_NoDup k v (d : record) : NoDup d.*1 -> NoDup (dict_set k v d).*1.
Proof.
  intros Hnd. rewrite dict_set_keys.
  destruct (bool_decide_reflect (k ∈ d.*1)) as [Hin|Hnin]; [done|].
  apply NoDup_app. split_and!; [done| |apply NoDup_singleton].
  intros x Hx ->%list_elem_of_singleton. done.
Qed.

Lemma dict_set_key_in k v (d : record) c :
  c ∈ (dict_set k v d).*1 <-> c ∈ d.*1 \/ c = k.
Proof.
  rewrite dict_set_keys.
  destruct (bool_decide_reflect (k ∈ d.*1)) as [Hin|Hnin].
  - split; [auto|]. by intros [?| ->].
  - rewrite elem_of_app, list_elem_of_singleton. done.
Qed.

Lemma row_data_keys column_names (r : row) indices (acc d : record) :
  row_data column_names r indices acc = Ok d ->
  NoDup acc.*1 ->
  NoDup d.*1
  /\ forall c, c ∈ d.*1 <->
               c ∈ acc.*1 \/ exists i, i ∈ indices /\ column_names !! i = Some c.
Proof.
  revert acc. induction indices as [|i rest IH]; intros acc Hrun Hnd.
  - injection Hrun as <-. split; [done|]. intros c. split; [auto|].
    intros [?|(i & Hi & _)]; [done|]. by apply elem_of_nil in Hi.
  - simpl in Hrun.
    destruct (column_names !! i) as [name|] eqn:Hname; [|done].
    destruct (r !! i) as [cell|]; [|done].
    destruct (IH _ Hrun (dict_set_NoDup name cell acc Hnd)) as [Hnd' Hkeys].
    split; [done|]. intros c. rewrite Hkeys, dict_set_key_in. split.
    + intros [[?| ->]|(j & Hj & Hc)]; [by left| |].
      * right. exists i. split; [apply elem_of_cons; by left|done].
      * right. exists j. split; [apply elem_of_cons; by right|done].
    + intros [?|(j & Hj & Hc)]; [by left; left|].
      apply elem_of_cons in Hj as [->|Hj].
      * left. right. congruence.
      * right. by exists j.
Qed.

Lemma format_rows_keys column_names (rs : list row) (acc l : list record) P :
  (forall r d, row_data column_names r (seq 0 (length column_names)) [] = Ok d -> P d) ->
  format_rows column_names rs acc = Ok l ->
  Forall P acc -> Forall P l.
Proof.
  intros HP. revert acc. induction rs as [|r rest IH]; intros acc Hrun Hacc.
  - by injection Hrun as <-.
  - simpl in Hrun. destruct (row_data _ _ _ _) as [d|x] eqn:E; [|done].
    apply (IH _ Hrun). apply Forall_app. split; [done|].
    constructor; [by eapply HP | done].
Qed.

(** Whether or not the column names are distinct, every record the
    formatter returns has one entry for each distinct column name and no
    other: a repeated name does not give a repeated key. *)
Theorem format_results_record_keys
    (rows : option (list row)) (column_names : list string) (l : list record) :
  _format_results rows (Some column_names) = Ok (FRecords l) ->
  Forall (fun d : record => NoDup d.*1 /\ forall c, c ∈ d.*1 <-> c ∈ column_names) l.
Proof.
  unfold _format_results.
  destruct (negb (list_truthy rows) || negb (list_truthy (Some column_names)));
    [done|].
  destruct (format_rows _ _ _) as [l'|x] eqn:E; [|done].
  intros [= <-]. eapply format_rows_keys; [|exact E|constructor].
  intros r d Hd. apply row_data_keys in Hd as [Hnd Hkeys]; [|constructor].
  split; [done|]. intros c. rewrite Hkeys. split.
  - intros [Hc|(i & _ & Hi)]; [by apply elem_of_nil in Hc|].
    by eapply list_elem_of_lookup_2.
  - intros [i Hi]%list_elem_of_lookup. right. exists i. split; [|done].
    apply elem_of_seq. apply lookup_lt_Some in Hi. simpl. lia.
Qed.

Lemma format_results_record_keys_witness :
  Forall (fun d : record => NoDup d.*1 /\ forall c, c ∈ d.*1 <-> c ∈ ["a"; "a"])
    [[("a", PInt 2)]].
Proof.
  apply (format_results_record_keys (Some [[PInt 1; PInt 2]]) ["a"; "a"]).
  reflexivity.
Defined.

Lemma unmark_fence_head s :
  unmark (FENCE +:+ s) = FENCE +:+ unmark s.
Proof.
  unfold FENCE. rewrite !app_cons, app_nil_l.
  by rewrite !unmark_cons by reflexivity.
Qed.

(** A completion wrapped in a code fence, with any language tag, is
    unwrapped: when the statement is one line, has no stray marker and does
    not itself begin with a fence, the cleaner returns exactly the statement. *)
Theorem clear_llm_response_unwraps_fence (tag statement : string) :
  has_char NL tag = false ->
  has_char NL statement = false ->
  contains MARKER statement = false ->
  startswith statement FENCE = false ->
  _clear_llm_response
    (FENCE +:+ tag +:+ nl +:+ statement +:+ nl +:+ FENCE) = statement.
Proof.
  intros Htag Hnl Hm Hf.
  change (FENCE +:+ tag +:+ nl +:+ statement +:+ nl +:+ FENCE)
    with (join nl [FENCE +:+ tag; statement; FENCE]).
  rewrite clear_unfold, split_unmark. unfold nl.
  rewrite split_join; [|done|].
  2: { by repeat constructor. }
  cbn [map]. rewrite unmark_fence_head, (unmark_fixed statement Hm).
  cbn [List.filter]. unfold keeps at 1, startswith at 1.
  rewrite prefix_app. cbn [negb]. unfold keeps at 1. rewrite Hf. cbn [negb].
  by vm_compute.
Qed.

Lemma clear_llm_response_unwraps_fence_witness :
  _clear_llm_response
    (FENCE +:+ "sql" +:+ nl +:+ "SELECT total FROM orders WHERE id=5;" +:+ nl
     +:+ FENCE)
  = "SELECT total FROM orders WHERE id=5;".
Proof.
  apply (clear_llm_response_unwraps_fence "sql"
           "SELECT total FROM orders WHERE id=5;"); reflexivity.
Defined.

(** ** More on the methods *)

Lemma logged_eq m message level :
  logged m message level
  = {| self := self m; trace := trace m ++ log_events m message level |}.
Proof.
  unfold logged, log_events. destruct (logs (self m)); [done|].
  destruct m. simpl. by rewrite app_nil_r.
Qed.

Lemma user_prompts_app tr1 tr2 :
  user_prompts (tr1 ++ tr2) = user_prompts tr1 ++ user_prompts tr2.
Proof. induction tr1 as [|[] tr1 IH]; simpl; by rewrite ?IH. Qed.

Lemma count_events_app p tr1 tr2 :
  count_events p (tr1 ++ tr2) = (count_events p tr1 + count_events p tr2)%nat.
Proof. unfold count_events. by rewrite List.filter_app, length_app. Qed.

Lemma log_events_user_prompts m message level :
  user_prompts (log_events m message level) = [].
Proof. unfold log_events. by destruct (logs (self m)). Qed.

Lemma log_events_backend m message level :
  count_events is_backend (log_events m message level) = 0%nat.
Proof. unfold log_events. by destruct (logs (self m)). Qed.

Lemma log_events_calls m message level : calls (log_events m message level) = [].
Proof. unfold log_events. by destruct (logs (self m)). Qed.


(** Whether or not the gate accepts the completion, [generate_sql] asks the
    backend exactly once, makes no call to the database or the repairer, and
    leaves the question and the raw completion in [self]; it succeeds exactly
    when the gate accepts the cleaned completion, and otherwise raises the
    error of the gate. *)
Theorem generate_sql_effects (env : Env) (question : string) (m : Machine) :
  let run := generate_sql env question in
  let raw := generated_content env question m in
  natural_language_question (self (snd (run m))) = Some question
  /\ generated_query (self (snd (run m))) = Some raw
  /\ count_events is_backend (events_of run m) = 1%nat
  /\ calls (events_of run m) = []
  /\ outcome_of run m
     = if gate_accepts (_clear_llm_response raw)
       then Ok (single_statement (_clear_llm_response raw))
       else Raise unsafe_query_error.
Proof.
  cbv zeta. unfold outcome_of, events_of. rewrite generate_sql_run. cbv zeta.
  destruct (gate_accepts _); simpl; rewrite logged_self, logged_eq; simpl;
    rewrite <- app_assoc, drop_app_length, count_events_app, calls_app,
      log_events_backend, log_events_calls; by split_and!.
Qed.

Lemma or_stored_run arg attr msg m :
  or_stored arg attr msg m =
    match arg_or_stored arg attr with
    | Some x => (Ok x, m)
    | None => (Raise (ValueError msg), m)
    end.
Proof.
  unfold or_stored, arg_or_stored, stored, truthy.
  destruct arg as [a|]; [destruct (nonempty a); [done|]|];
    (destruct attr as [x|]; [by destruct (nonempty x)|done]).
Qed.

Lemma fix_body_run env e question sql m sq qn :
  arg_or_stored sql (generated_query (self m)) = Some sq ->
  arg_or_stored question (natural_language_question (self m)) = Some qn ->
  fix_error_message_body env e question sql m =
    let clear := _clear_llm_response (repair_content env m qn e sq) in
    let m1 := {| self := self m;
                 trace := trace m ++ [repair_event env m qn e sq] |} in
    if gate_accepts clear
    then (Ok (single_statement clear),
          logged m1 ("Fixed SQL: " +:+ single_statement clear) "debug")
    else (Raise unsafe_query_error,
          logged m1 ("Query is not a SELECT statement: "
                     +:+ before_first SEMI clear) "error").
Proof.
  intros Hsq Hqn. unfold fix_error_message_body.
  rewrite (bind_ok _ _ m (self m) m) by done.
  rewrite (bind_ok _ _ m sq m) by (by rewrite or_stored_run, Hsq).
  rewrite (bind_ok _ _ m qn m) by (by rewrite or_stored_run, Hqn).
  cbv zeta.
  erewrite (bind_ok (now env)) by reflexivity.
  erewrite (bind_ok (backend_chat env _ _)) by reflexivity.
  fold (repair_content env m qn e sq). fold (repair_event env m qn e sq).
  destruct (gate_accepts (_clear_llm_response (repair_content env m qn e sq)))
    eqn:Hg.
  - erewrite (bind_ok (_is_safe_query _))
      by (rewrite is_safe_query_run, Hg; reflexivity).
    by rewrite (bind_ok _ _ _ _ _ (log_run _ _ _)).
  - erewrite (bind_raise (_is_safe_query _))
      by (rewrite is_safe_query_run, Hg; reflexivity).
    done.
Qed.

(** Given a usable query and question, as arguments or, for an omitted or
    empty argument, as stored, [fix_error_message] asks the backend exactly
    once, with the prompt composed from that question, the error and that
    query, and returns the completion cleaned and gated, or raises the error
    of the gate. *)
Theorem fix_error_message_asks_once
    (env : Env) (error : string) (question sql_query : option string)
    (m : Machine) (sq qn : string) :
  arg_or_stored sql_query (generated_query (self m)) = Some sq ->
  arg_or_stored question (natural_language_question (self m)) = Some qn ->
  let run := fix_error_message env error question sql_query in
  let clear := _clear_llm_response (repair_content env m qn error sq) in
  user_prompts (events_of run m)
  = [repair_user_prompt (self m)
       (strftime_now env (count_events is_backend (trace m))) qn error sq]
  /\ outcome_of run m
     = if gate_accepts clear then Ok (single_statement clear)
       else Raise unsafe_query_error.
Proof.
  intros Hsq Hqn. cbv zeta. unfold outcome_of, events_of, fix_error_message.
  rewrite (fix_body_run env error question sql_query m sq qn Hsq Hqn).
  cbv zeta. destruct (gate_accepts _); rewrite logged_eq; simpl;
    rewrite <- !app_assoc, drop_app_length, !user_prompts_app,
      log_events_user_prompts; by split.
Qed.

Lemma fix_error_message_asks_once_witness :
  user_prompts
    (events_of (fix_error_message env_failing "no such column: b"
                  None (Some "SELECT b")) asked_instance)
  = [repair_user_prompt (self asked_instance) "2025-01-01 12:00:00"
       "old question?" "no such column: b" "SELECT b"].
Proof.
  apply (fix_error_message_asks_once env_failing "no such column: b"
           None (Some "SELECT b") asked_instance "SELECT b" "old question?");
    reflexivity.
Defined.

(** With no usable query, given or stored, [fix_error_message] raises the
    missing-query error, whatever the question; with a query but no usable
    question it raises the missing-question error; in neither case is the
    backend asked. *)
Theorem fix_error_message_missing_context
    (env : Env) (error : string) (question sql_query : option string)
    (m : Machine) :
  let run := fix_error_message env error question sql_query in
  (arg_or_stored sql_query (generated_query (self m)) = None ->
     outcome_of run m = Raise missing_query_error
     /\ count_events is_backend (events_of run m) = 0%nat)
  /\ (arg_or_stored sql_query (generated_query (self m)) <> None ->
      arg_or_stored question (natural_language_question (self m)) = None ->
      outcome_of run m = Raise missing_repair_question_error
      /\ count_events is_backend (events_of run m) = 0%nat).
Proof.
  cbv zeta. unfold outcome_of, events_of, fix_error_message,
    fix_error_message_body.
  rewrite (bind_ok _ _ m (self m) m) by done. split.
  - intros Hsq.
    rewrite (bind_raise _ _ m missing_query_error m)
      by (by rewrite or_stored_run, Hsq).
    simpl. by rewrite drop_app_length.
  - intros Hsq Hqn.
    destruct (arg_or_stored sql_query (generated_query (self m))) as [sq|] eqn:E;
      [|done].
    rewrite (bind_ok _ _ m sq m) by (by rewrite or_stored_run, E).
    rewrite (bind_raise _ _ m missing_repair_question_error m)
      by (by rewrite or_stored_run, Hqn).
    simpl. by rewrite drop_app_length.
Qed.

Lemma fix_error_message_missing_context_witness :
  outcome_of (fix_error_message env_failing "boom" (Some "why?") None)
    orders_instance
  = Raise missing_query_error
  /\ outcome_of (fix_error_message env_failing "boom" (Some EmptyString)
                   (Some "SELECT a")) orders_instance
     = Raise missing_repair_question_error.
Proof.
  split.
  - apply (proj1 (fix_error_message_missing_context env_failing "boom"
                    (Some "why?") None orders_instance)).
    reflexivity.
  - apply (proj2 (fix_error_message_missing_context env_failing "boom"
                    (Some EmptyString) (Some "SELECT a") orders_instance));
      [done | reflexivity].
Defined.

(** [generate_human_response] answers with the completion of the backend as
    it is, neither cleaned nor gated, asking it once and leaving [self] alone;
    the question is the argument or, when that is omitted or empty, the
    stored one, and with neither it raises without asking the backend. *)
Theorem generate_human_response_outcome
    (env : Env) (query_results : string) (question : option string)
    (m : Machine) :
  generate_human_response env query_results question m =
    match arg_or_stored question (natural_language_question (self m)) with
    | Some q =>
        (Ok (human_content env m q query_results),
         {| self := self m;
            trace := trace m ++ [human_event env m q query_results] |})
    | None => (Raise missing_question_error, m)
    end.
Proof.
  unfold generate_human_response.
  rewrite (bind_ok _ _ m (self m) m) by done.
  destruct (arg_or_stored question (natural_language_question (self m)))
    as [q|] eqn:E.
  - by rewrite (bind_ok _ _ m q m) by (by rewrite or_stored_run, E).
  - by rewrite (bind_raise _ _ m missing_question_error m)
      by (by rewrite or_stored_run, E).
Qed.

(** ** More on the orchestrator *)

Lemma conclude_ok_bundle env question max_retries human v m b :
  fst (conclude env question max_retries human v m) = Ok b ->
  exists fr,
    _format_results (rows v) (column_names v) = Ok fr
    /\ ((human = false
         /\ b = plain_bundle (sql_query v) fr (elapsed env) (count_tries v))
        \/ (human = true
            /\ exists answer,
                 b = human_bundle (sql_query v) fr answer (elapsed env)
                       (count_tries v))).
Proof.
  intros Hb.
  destruct ((count_tries v =? max_retries) && truthy (error v)) eqn:Hguard.
  { apply andb_true_iff in Hguard as [Hc%Z.eqb_eq He].
    by rewrite (conclude_exhausted env question max_retries human v m Hc He) in Hb. }
  destruct (_format_results (rows v) (column_names v)) as [fr|x] eqn:Hf.
  2: { by rewrite (conclude_format_error _ _ _ _ _ _ _ Hguard Hf) in Hb. }
  exists fr. split; [done|]. destruct human.
  - right. split; [done|].
    pose proof (conclude_human env question max_retries v m fr Hguard Hf) as H.
    destruct (stored (natural_language_question (self m))).
    + destruct H as [answer H]. rewrite H in Hb. injection Hb as <-. by exists answer.
    + by rewrite H in Hb.
  - left. split; [done|].
    rewrite (conclude_plain env question max_retries v m fr Hguard Hf) in Hb.
    by injection Hb as <-.
Qed.

Lemma loop_run_counts max_retries v cs v' :
  loop_run max_retries v cs v' ->
  (count_exec cs <= Z.to_nat (max_retries - count_tries v))%nat
  /\ (count_repair cs <= count_exec cs)%nat
  /\ (count_exec cs <= count_repair cs + 1)%nat
  /\ match cs with
     | [] => True
     | c :: _ => exists out, c = CExec (sql_query v) out
     end.
Proof.
  induction 1 as [v Hge|v out Hlt _ _|v out e msg Hlt _ _ _
                  |v out e fixed cs v' Hlt _ _ _ _ _ IH]; simpl.
  - split_and!; [lia..|done].
  - split_and!; [lia..|by eexists].
  - split_and!; [lia..|by eexists].
  - destruct IH as (H1 & H2 & H3 & _). simpl in H1.
    split_and!; [lia..|by eexists].
Qed.

Lemma loop_run_retries max_retries v cs v' :
  loop_run max_retries v cs v' ->
  count_tries v' = count_tries v + Z.of_nat (successful_repairs cs)
  /\ count_tries v' <= Z.max (count_tries v) max_retries.
Proof.
  unfold successful_repairs.
  induction 1 as [v Hge|v out Hlt _ _|v out e msg Hlt _ _ _
                  |v out e fixed cs v' Hlt _ _ _ _ _ IH]; simpl.
  - lia.
  - lia.
  - lia.
  - destruct IH as [H1 H2]. simpl in H1, H2. lia.
Qed.

Lemma generate_sql_backend_count env question m :
  count_events is_backend (events_of (generate_sql env question) m) = 1%nat.
Proof.
  unfold events_of. rewrite generate_sql_run. cbv zeta.
  destruct (gate_accepts _); simpl; rewrite logged_eq; simpl;
    by rewrite <- app_assoc, drop_app_length, count_events_app,
      log_events_backend.
Qed.

(** A generation the gate rejects spends nothing of the budget: [chat]
    raises its generation-failure error after the one backend call of the
    generation, with no execution attempt and no repair call. *)
Theorem chat_generation_failure
    (env : Env) (question : string) (max_retries : Z) (human_response : bool)
    (m : Machine) :
  let run := chat env question max_retries human_response in
  is_ok (outcome_of (generate_sql env question) m) = false ->
  outcome_of run m = Raise generation_failure
  /\ calls (events_of run m) = []
  /\ count_events is_backend (events_of run m) = 1%nat.
Proof.
  cbv zeta. intros Hgen.
  destruct (chat_run env question max_retries human_response m)
    as [(mg & Hg & Hchat & Hc)|(g & mg & v & ml & Hg & _)].
  2: { unfold outcome_of in Hgen. by rewrite Hg in Hgen. }
  unfold outcome_of. rewrite Hchat. split_and!; [done..|].
  rewrite <- (generate_sql_backend_count env question m).
  unfold events_of. by rewrite Hchat, Hg.
Qed.

Lemma chat_generation_failure_witness :
  outcome_of (chat env_bad_repair "drop it" 3 false)
    {| self := self orders_instance;
       trace := [EvBackend "m" "s" "u" "earlier answer"] |}
  = Raise generation_failure.
Proof.
  apply (chat_generation_failure env_bad_repair "drop it" 3 false).
  by vm_compute.
Defined.

(** In every run of [chat] the execution attempts number at most
    [max_retries] (none for a budget of zero or less); the repair calls are as
    many as the attempts or one fewer; and the first call, if there is one,
    executes the query [generate_sql] returned. *)
Theorem chat_call_bounds
    (env : Env) (question : string) (max_retries : Z) (human_response : bool)
    (m : Machine) :
  let cs := calls (events_of (chat env question max_retries human_response) m) in
  Z.of_nat (count_exec cs) <= Z.max 0 max_retries
  /\ (count_repair cs <= count_exec cs <= count_repair cs + 1)%nat
  /\ match cs with
     | [] => True
     | c :: _ =>
         exists out generated,
           c = CExec generated out
           /\ outcome_of (generate_sql env question) m = Ok generated
     end.
Proof.
  cbv zeta.
  destruct (chat_run env question max_retries human_response m)
    as [(mg & _ & _ & ->)|(g & mg & v & ml & Hg & _ & _ & Hrun & _)].
  { simpl. split_and!; [lia..|done]. }
  destruct (loop_run_counts _ _ _ _ Hrun) as (H1 & H2 & H3 & H4).
  simpl in H1. split_and!; [lia..|].
  destruct (calls _) as [|c cs]; [done|].
  destruct H4 as [out ->]. exists out, g. split; [done|].
  unfold outcome_of. by rewrite Hg.
Qed.

(** The [retries] of a returned bundle is the number of repair calls that
    returned a query, and lies between zero and the budget. *)
Theorem chat_retries_field
    (env : Env) (question : string) (max_retries : Z) (human_response : bool)
    (m : Machine) (b : gmap string bval) :
  let run := chat env question max_retries human_response in
  outcome_of run m = Ok b ->
  b !! "retries"
  = Some (BInt (Z.of_nat (successful_repairs (calls (events_of run m)))))
  /\ Z.of_nat (successful_repairs (calls (events_of run m))) <= Z.max 0 max_retries.
Proof.
  cbv zeta. unfold outcome_of. intros Hb.
  destruct (chat_run env question max_retries human_response m)
    as [(mg & _ & Hchat & _)|(g & mg & v & ml & _ & _ & _ & Hrun & Hchat)].
  { by rewrite Hchat in Hb. }
  destruct (loop_run_retries _ _ _ _ Hrun) as [Hc Hmax]. simpl in Hc, Hmax.
  rewrite Hchat in Hb.
  apply conclude_ok_bundle in Hb as (fr & _ & [[_ ->]|[_ [answer ->]]]).
  - rewrite bundle_retries_plain, Hc. split; [done|lia].
  - rewrite bundle_retries_human, Hc. split; [done|lia].
Qed.

Lemma chat_retries_field_witness :
  exists b,
    outcome_of (chat env_repaired "total of order 5?" 3 true) orders_instance
    = Ok b
    /\ b !! "retries" = Some (BInt 1).
Proof.
  assert (exists b,
            outcome_of (chat env_repaired "total of order 5?" 3 true)
              orders_instance = Ok b) as [b Hb].
  { eexists. by vm_compute. }
  exists b. split; [exact Hb|].
  rewrite (proj1 (chat_retries_field env_repaired "total of order 5?" 3 true
                    orders_instance b Hb)).
  by vm_compute.
Defined.

(** With a budget of zero or less nothing is executed or repaired: [chat]
    returns the generated query with the sentinel for no results and zero
    retries. *)
Theorem chat_without_budget
    (env : Env) (question : string) (max_retries : Z) (human_response : bool)
    (m : Machine) (generated : string) :
  max_retries <= 0 ->
  outcome_of (generate_sql env question) m = Ok generated ->
  calls (events_of (chat env question max_retries human_response) m) = []
  /\ outcome_of (chat env question max_retries false) m
     = Ok (plain_bundle generated no_results (elapsed env) 0).
Proof.
  intros Hmax Hgen. split.
  - destruct (chat_run env question max_retries human_response m)
      as [(mg & _ & _ & Hc)|(g & mg & v & ml & _ & _ & _ & Hrun & _)]; [done|].
    inversion Hrun; subst; simpl in *; (done || lia).
  - destruct (chat_run env question max_retries false m)
      as [(mg & Hg & _)|(g & mg & v & ml & Hg & _ & _ & Hrun & Hchat)].
    { unfold outcome_of in Hgen. by rewrite Hg in Hgen. }
    unfold outcome_of in *. rewrite Hg in Hgen. injection Hgen as ->.
    rewrite Hchat.
    inversion Hrun as [v0 Hge Hv| | |]; subst; simpl in *; try lia.
    rewrite (conclude_plain env question max_retries _ ml no_results); [done| |done].
    simpl. apply andb_false_r.
Qed.

Lemma chat_without_budget_witness :
  outcome_of (chat env_orders "what is the total of order 5?" 0 false)
    orders_instance
  = Ok (plain_bundle "SELECT total FROM orders WHERE id=5" no_results (5 # 100) 0).
Proof.
  apply (proj2 (chat_without_budget env_orders "what is the total of order 5?"
                  0 false orders_instance
                  "SELECT total FROM orders WHERE id=5"
                  ltac:(lia) ltac:(by vm_compute))).
Defined.

Lemma keeps_self_human env results question :
  keeps_self (generate_human_response env results question).
Proof. unfold generate_human_response. quiet. Qed.

Lemma keeps_self_conclude env question max_retries human v :
  keeps_self (conclude env question max_retries human v).
Proof.
  unfold conclude.
  destruct ((count_tries v =? max_retries) && truthy (error v)); [quiet|].
  destruct human; quiet.
Qed.

(** However a run of [chat] ends, it changes [self] only through its one
    call of [generate_sql]: afterwards the stored question is the one asked
    and the stored query is the raw first completion, whatever the repairs
    proposed and whatever query the bundle reports. *)
Theorem chat_keeps_generation_state
    (env : Env) (question : string) (max_retries : Z) (human_response : bool)
    (m : Machine) :
  let m' := snd (chat env question max_retries human_response m) in
  self m' = self (snd (generate_sql env question m))
  /\ natural_language_question (self m') = Some question
  /\ generated_query (self m') = Some (generated_content env question m).
Proof.
  cbv zeta.
  assert (self (snd (chat env question max_retries human_response m))
          = self (snd (generate_sql env question m))) as Hself.
  { unfold chat, mbind, M_bind, bind, try_except_ValueError.
    destruct (generate_sql env question m) as [[g|[msg|]] mg]; simpl; [|done..].
    destruct (while_retry_spec env max_retries (loop_entry g) mg)
      as (v & ml & new & Hloop & Hs & _).
    rewrite Hloop, <- Hs. apply keeps_self_conclude. }
  rewrite Hself, generate_sql_run. cbv zeta.
  destruct (gate_accepts _); simpl; by rewrite logged_self.
Qed.






(** ** No engine, no logging *)

Section Switches.

Context (env : Env).

Lemma respects_quiet {A} (c : M A) :
  (forall m, snd (c m) = m) -> respects c.
Proof.
  intros H m. rewrite H. split_and!; [done..|].
  exists []. by rewrite app_nil_r.
Qed.

Lemma respects_ret {A} (a : A) : respects (mret a : M A).
Proof. by apply respects_quiet. Qed.

Lemma respects_raise {A} e : respects (raise e : M A).
Proof. by apply respects_quiet. Qed.

Lemma respects_lift {A} (r : result A) : respects (lift r).
Proof. by apply respects_quiet. Qed.

Lemma respects_get_self : respects get_self.
Proof. by apply respects_quiet. Qed.

Lemma respects_now : respects (now env).
Proof. by apply respects_quiet. Qed.

Lemma respects_or_stored arg attr msg : respects (or_stored arg attr msg).
Proof.
  apply respects_quiet. intros m. rewrite or_stored_run.
  by destruct (arg_or_stored arg attr).
Qed.

Lemma respects_bind {A B} (c : M A) (k : A -> M B) :
  respects c -> (forall a, respects (k a)) -> respects (c ≫= k).
Proof.
  intros Hc Hk m. unfold mbind, M_bind, bind.
  destruct (Hc m) as (He & Hl & n1 & H1 & F1).
  destruct (c m) as [[a|e] m1]; simpl in *; [|by eauto].
  destruct (Hk a m1) as (He2 & Hl2 & n2 & H2 & F2).
  rewrite He2, Hl2, He, Hl. split_and!; [done..|].
  exists (n1 ++ n2). rewrite H2, H1, app_assoc. split; [done|].
  apply Forall_app. split; [done|]. by rewrite <- He, <- Hl.
Qed.

Lemma respects_try {A} (c : M A) h :
  respects c -> (forall msg, respects (h msg)) ->
  respects (try_except_ValueError c h).
Proof.
  intros Hc Hh m. unfold try_except_ValueError.
  destruct (Hc m) as (He & Hl & n1 & H1 & F1).
  destruct (c m) as [[a|[msg|]] m1]; simpl in *; [by eauto| |by eauto].
  destruct (Hh msg m1) as (He2 & Hl2 & n2 & H2 & F2).
  rewrite He2, Hl2, He, Hl. split_and!; [done..|].
  exists (n1 ++ n2). rewrite H2, H1, app_assoc. split; [done|].
  apply Forall_app. split; [done|]. by rewrite <- He, <- Hl.
Qed.

Lemma respects_log message level : respects (_log message level).
Proof.
  intros m. rewrite log_run. simpl. rewrite logged_self, logged_eq. simpl.
  split_and!; [done..|]. eexists. split; [done|].
  unfold log_events. destruct (logs (self m)) eqn:E; by repeat constructor.
Qed.

Lemma respects_backend system user : respects (backend_chat env system user).
Proof.
  intros m. simpl. split_and!; [done..|]. eexists. split; [done|].
  by repeat constructor.
Qed.

Lemma respects_execute sql : respects (_execute_sql_query env sql).
Proof.
  intros m. unfold _execute_sql_query. simpl. split_and!; [done..|].
  eexists. split; [done|]. repeat constructor. simpl. by intros ->.
Qed.

Lemma respects_is_safe_query query : respects (_is_safe_query query).
Proof.
  unfold _is_safe_query. destruct (startswith _ _); [apply respects_ret|].
  apply respects_bind; [apply respects_log|]. intros _. apply respects_raise.
Qed.

Lemma respects_generate_sql question : respects (generate_sql env question).
Proof.
  intros m. rewrite generate_sql_run. cbv zeta.
  destruct (gate_accepts _); simpl; rewrite logged_self, logged_eq; simpl;
    (split_and!; [done..|]); rewrite <- app_assoc;
    (eexists; split; [done|]);
    (apply Forall_cons; split; [done|]);
    unfold log_events; simpl; destruct (logs (self m)) eqn:E;
    by repeat constructor.
Qed.

Lemma respects_fix_error_message e question sql :
  respects (fix_error_message env e question sql).
Proof.
  assert (respects (fix_error_message_body env e question sql)) as Hbody.
  { unfold fix_error_message_body.
    repeat first
      [ apply respects_get_self | apply respects_or_stored | apply respects_now
      | apply respects_backend | apply respects_is_safe_query
      | apply respects_log | apply respects_ret
      | apply respects_bind; [|intros ?] ]. }
  intros m. unfold fix_error_message.
  destruct (Hbody m) as (He & Hl & new & Ht & Hf).
  destruct (fix_error_message_body env e question sql m) as [r mb]. simpl in *.
  split_and!; [done..|]. exists (new ++ [EvRepair e r]).
  rewrite Ht, app_assoc. split; [done|].
  apply Forall_app. split; [done|]. by repeat constructor.
Qed.

Lemma respects_human results question :
  respects (generate_human_response env results question).
Proof.
  unfold generate_human_response.
  repeat first
    [ apply respects_get_self | apply respects_or_stored
    | apply respects_backend
    | apply respects_bind; [|intros ?] ].
Qed.

Lemma respects_retry_loop n max_retries v :
  respects (retry_loop env n max_retries v).
Proof.
  revert v. induction n as [|n IH]; intros v; [apply respects_ret|].
  simpl. destruct (count_tries v <? max_retries); [|apply respects_ret].
  unfold retry_body.
  apply respects_bind; [apply respects_execute|]. intros out. cbv zeta.
  destruct (error (with_outcome v out)) as [e|]; [|apply respects_ret].
  destruct (nonempty e); [|apply respects_ret].
  apply respects_bind; [apply respects_log|]. intros _.
  apply respects_bind.
  - apply respects_try.
    + apply respects_bind; [apply respects_fix_error_message|].
      intros q. apply respects_ret.
    + intros msg. apply respects_bind; [apply respects_log|].
      intros _. apply respects_ret.
  - intros [q|]; [apply IH | apply respects_ret].
Qed.

Lemma respects_conclude question max_retries human v :
  respects (conclude env question max_retries human v).
Proof.
  unfold conclude.
  destruct ((count_tries v =? max_retries) && truthy (error v)).
  { apply respects_bind; [apply respects_log|]. intros _. apply respects_raise. }
  apply respects_bind; [apply respects_lift|]. intros fr.
  do 4 (apply respects_bind; [apply respects_log|]; intros _).
  destruct human; [|apply respects_ret].
  apply respects_bind; [apply respects_human|]. intros answer. apply respects_ret.
Qed.

Lemma respects_chat question max_retries human :
  respects (chat env question max_retries human).
Proof.
  unfold chat. apply respects_bind.
  - apply respects_try; [apply respects_generate_sql|].
    intros _. apply respects_raise.
  - intros g. apply respects_bind; [apply respects_retry_loop|].
    intros v. apply respects_conclude.
Qed.

End Switches.

Lemma loop_run_no_rows max_retries v cs v' :
  loop_run max_retries v cs v' ->
  rows v = None -> column_names v = None ->
  Forall (fun o => o = no_engine_outcome) (exec_outcomes cs) ->
  rows v' = None /\ column_names v' = None.
Proof.
  induction 1 as [v Hge|v out Hlt _ _|v out e msg Hlt _ _ _
                  |v out e fixed cs v' Hlt _ _ _ _ _ IH];
    intros Hr Hc Hall; simpl in *.
  - done.
  - by apply Forall_cons in Hall as [-> _].
  - by apply Forall_cons in Hall as [-> _].
  - apply Forall_cons in Hall as [-> Hrest]. by apply IH.
Qed.

(** With logging disabled a run of [chat] logs nothing. *)
Theorem chat_logs_nothing_when_disabled
    (env : Env) (question : string) (max_retries : Z) (human_response : bool)
    (m : Machine) :
  logs (self m) = false ->
  Forall (fun e => is_log e = false)
    (events_of (chat env question max_retries human_response) m).
Proof.
  intros Hl.
  destruct (respects_chat env question max_retries human_response m)
    as (_ & _ & new & Ht & Hf).
  rewrite (events_of_app _ _ _ Ht).
  eapply Forall_impl; [exact Hf|]. intros [] Ha; try done.
  simpl in Ha. congruence.
Qed.

Lemma chat_logs_nothing_when_disabled_witness :
  Forall (fun e => is_log e = false)
    (events_of (chat env_repaired "total of order 5?" 3 true)
       (new_instance "orders(id, total)" "qwen2.5-coder:1.5b" "sqlite" true false)).
Proof.
  apply (chat_logs_nothing_when_disabled env_repaired "total of order 5?" 3 true).
  reflexivity.
Defined.

(** With no engine connected every execution attempt of a run of [chat]
    returns the connection error, so that a returned bundle holds the sentinel
    for no results, never records. *)
Theorem chat_without_engine
    (env : Env) (question : string) (max_retries : Z) (human_response : bool)
    (m : Machine) :
  let run := chat env question max_retries human_response in
  engine (self m) = false ->
  Forall (fun o => o = no_engine_outcome)
    (exec_outcomes (calls (events_of run m)))
  /\ (forall b, outcome_of run m = Ok b ->
        bundle_results human_response b = Some (BResults no_results)).
Proof.
  cbv zeta. intros He.
  assert (Forall (fun o => o = no_engine_outcome)
            (exec_outcomes
               (calls (events_of (chat env question max_retries human_response) m))))
    as Hall.
  { destruct (respects_chat env question max_retries human_response m)
      as (_ & _ & new & Ht & Hf).
    rewrite (events_of_app _ _ _ Ht). clear Ht.
    induction Hf as [|ev new Hev _ IH]; [constructor|].
    destruct ev; simpl; try done. constructor; [by apply Hev | done]. }
  split; [done|]. unfold outcome_of. intros b Hb.
  destruct (chat_run env question max_retries human_response m)
    as [(mg & _ & Hchat & _)|(g & mg & v & ml & _ & _ & _ & Hrun & Hchat)].
  { by rewrite Hchat in Hb. }
  destruct (loop_run_no_rows _ _ _ _ Hrun eq_refl eq_refl Hall) as [Hr Hc].
  rewrite Hchat in Hb.
  apply conclude_ok_bundle in Hb as (fr & Hf & [[-> ->]|[-> [answer ->]]]);
    rewrite Hr, Hc in Hf; injection Hf as <-;
    unfold bundle_results, plain_bundle, human_bundle; by simplify_map_eq.
Qed.

Lemma chat_without_engine_witness :
  Forall (fun o => o = no_engine_outcome)
    (exec_outcomes
       (calls (events_of (chat env_orders "what is the total of order 5?" 3 false)
                 offline_instance))).
Proof.
  apply (proj1 (chat_without_engine env_orders "what is the total of order 5?"
                  3 false offline_instance eq_refl)).
Defined.

(** ** Connecting *)





(** ** Schema extraction *)

Lemma count_tagged_app tag ws1 ws2 :
  count_tagged tag (ws1 ++ ws2)
  = (count_tagged tag ws1 + count_tagged tag ws2)%nat.
Proof. unfold count_tagged. by rewrite List.filter_app, length_app. Qed.

Lemma count_tagged_singleton tag w :
  count_tagged tag [w] = if startswith w tag then 1%nat else 0%nat.
Proof.
  unfold count_tagged. cbn [List.filter]. by destruct (startswith w tag).
Qed.

Lemma count_tagged_concat {A} tag (f : A -> list string) (l : list A) :
  count_tagged tag (concat (map f l))
  = sum_list_with (fun x => count_tagged tag (f x)) l.
Proof.
  induction l as [|x l IH]; [done|]. simpl.
  by rewrite count_tagged_app, IH.
Qed.

Lemma count_tagged_all tag {A} (f : A -> string) (l : list A) :
  (forall x, startswith (f x) tag = true) ->
  count_tagged tag (map f l) = length l.
Proof.
  intros H. unfold count_tagged. induction l as [|x l IH]; [done|].
  simpl. rewrite H. simpl. by rewrite IH.
Qed.

Lemma count_tagged_none tag {A} (f : A -> string) (l : list A) :
  (forall x, startswith (f x) tag = false) ->
  count_tagged tag (map f l) = 0%nat.
Proof.
  intros H. unfold count_tagged. induction l as [|x l IH]; [done|].
  simpl. by rewrite H.
Qed.

Lemma sum_list_with_ext {A} (f g : A -> nat) (l : list A) :
  (forall x, f x = g x) -> sum_list_with f l = sum_list_with g l.
Proof. intros H. induction l as [|x l IH]; [done|]. simpl. by rewrite H, IH. Qed.

Lemma sum_list_with_const {A} (n : nat) (l : list A) :
  sum_list_with (fun _ => n) l = (length l * n)%nat.
Proof. induction l as [|x l IH]; [done|]. simpl. by rewrite IH. Qed.

Lemma column_writes_counts t c :
  count_tagged "- " (column_writes t c) = 1%nat
  /\ count_tagged "Index: " (column_writes t c) = length (table_indexes t)
  /\ count_tagged "Check Constraint: " (column_writes t c)
     = length (table_checks t)
  /\ count_tagged "Table: " (column_writes t c) = 0%nat.
Proof.
  unfold column_writes.
  change (column_line c :: ?l) with ([column_line c] ++ l).
  rewrite !count_tagged_app. split_and!.
  - rewrite (count_tagged_none "- " index_line) by (intros; reflexivity).
    rewrite (count_tagged_none "- " check_line) by (intros; reflexivity).
    assert (startswith (column_line c) "- " = true) as H by apply prefix_app.
    by rewrite count_tagged_singleton, H.
  - rewrite (count_tagged_all "Index: " index_line)
      by (intros; apply prefix_app).
    rewrite (count_tagged_none "Index: " check_line) by (intros; reflexivity).
    change (count_tagged "Index: " [column_line c]) with 0%nat. lia.
  - rewrite (count_tagged_none "Check Constraint: " index_line)
      by (intros; reflexivity).
    rewrite (count_tagged_all "Check Constraint: " check_line)
      by (intros; apply prefix_app).
    change (count_tagged "Check Constraint: " [column_line c]) with 0%nat. lia.
  - rewrite (count_tagged_none "Table: " index_line) by (intros; reflexivity).
    rewrite (count_tagged_none "Table: " check_line) by (intros; reflexivity).
    reflexivity.
Qed.

Lemma table_writes_counts t :
  count_tagged "Table: " (table_writes t) = 1%nat
  /\ count_tagged "- " (table_writes t) = length (table_columns t)
  /\ count_tagged "Index: " (table_writes t)
     = (length (table_columns t) * length (table_indexes t))%nat
  /\ count_tagged "Check Constraint: " (table_writes t)
     = (length (table_columns t) * length (table_checks t))%nat.
Proof.
  unfold table_writes.
  change (?h :: ?l ++ [nl]) with ([h] ++ l ++ [nl]).
  rewrite !count_tagged_app, !count_tagged_concat.
  rewrite (sum_list_with_ext
             (fun c => count_tagged "Table: " (column_writes t c))
             (fun _ => 0%nat) (table_columns t))
    by (intros c; apply column_writes_counts).
  rewrite (sum_list_with_ext
             (fun c => count_tagged "- " (column_writes t c))
             (fun _ => 1%nat) (table_columns t))
    by (intros c; apply column_writes_counts).
  rewrite (sum_list_with_ext
             (fun c => count_tagged "Index: " (column_writes t c))
             (fun _ => length (table_indexes t)) (table_columns t))
    by (intros c; apply column_writes_counts).
  rewrite (sum_list_with_ext
             (fun c => count_tagged "Check Constraint: " (column_writes t c))
             (fun _ => length (table_checks t)) (table_columns t))
    by (intros c; apply column_writes_counts).
  rewrite !sum_list_with_const.
  assert (count_tagged "Table: " [("Table: " +:+ table_name t +:+ nl)%string]
          = 1%nat) as ->.
  { rewrite count_tagged_singleton. unfold startswith.
    by rewrite (prefix_app "Table: " (table_name t +:+ nl)). }
  change (count_tagged "- " [("Table: " +:+ table_name t +:+ nl)%string])
    with 0%nat.
  change (count_tagged "Index: " [("Table: " +:+ table_name t +:+ nl)%string])
    with 0%nat.
  change (count_tagged "Check Constraint: "
            [("Table: " +:+ table_name t +:+ nl)%string]) with 0%nat.
  change (count_tagged "Table: " [nl]) with 0%nat.
  change (count_tagged "- " [nl]) with 0%nat.
  change (count_tagged "Index: " [nl]) with 0%nat.
  change (count_tagged "Check Constraint: " [nl]) with 0%nat.
  split_and!; lia.
Qed.

(** [extract_schema] writes one header per table and one line per column;
    because the loops over the indexes and the constraints sit inside the loop
    over the columns, every index and every check constraint of a table is
    written once for each of its columns, and not at all for a table without
    columns. *)
Theorem extract_schema_line_counts (tables : list Table) :
  count_tagged "Table: " (extract_schema tables) = length tables
  /\ count_tagged "- " (extract_schema tables)
     = sum_list_with (fun t => length (table_columns t)) tables
  /\ count_tagged "Index: " (extract_schema tables)
     = sum_list_with
         (fun t => (length (table_columns t) * length (table_indexes t))%nat)
         tables
  /\ count_tagged "Check Constraint: " (extract_schema tables)
     = sum_list_with
         (fun t => (length (table_columns t) * length (table_checks t))%nat)
         tables.
Proof.
  unfold extract_schema. rewrite !count_tagged_concat. split_and!.
  - rewrite (sum_list_with_ext
               (fun t => count_tagged "Table: " (table_writes t))
               (fun _ => 1%nat) tables)
      by (intros t; apply table_writes_counts).
    rewrite sum_list_with_const. lia.
  - apply sum_list_with_ext. intros t. apply table_writes_counts.
  - apply sum_list_with_ext. intros t. apply table_writes_counts.
  - apply sum_list_with_ext. intros t. apply table_writes_counts.
Qed.
